(** * 3D camera image editor: spherical camera pose, drag controller and prompt composer

    A shallow embedding of [App.tsx], [components/CameraViewer] (second part
    of [App.tsx]), [services/geminiService.ts] and [types.ts].

    Numbers.  A JavaScript [number] is modelled by [JS.number]: a finite real,
    one of the two infinities, or NaN.  Finite arithmetic is exact (the
    rounding error of IEEE doubles and the sign of zero are not modelled);
    division by zero, NaN propagation, comparisons with NaN and the
    behaviour of [Math.min]/[Math.max] on NaN follow ECMAScript. *)

From Stdlib Require Import Reals Lra Lia ZArith List String Ascii Bool.
From Stdlib Require Import Zfloor.
Import ListNotations.

#[local] Open Scope R_scope.

(** ** JavaScript numbers *)

Module JS.

Inductive number : Type :=
| Fin (r : R)
| PInf
| NInf
| NaN.

Definition Rltb (a b : R) : bool := if Rlt_dec a b then true else false.
Definition Rleb (a b : R) : bool := if Rle_dec a b then true else false.
Definition Reqb (a b : R) : bool := if Req_dec_T a b then true else false.

Definition isNaN (a : number) : bool :=
  match a with NaN => true | _ => false end.

Definition isFinite (a : number) : bool :=
  match a with Fin _ => true | _ => false end.

(** [a < b]; every comparison with NaN is false. *)
Definition lt (a b : number) : bool :=
  match a, b with
  | NaN, _ | _, NaN => false
  | Fin x, Fin y => Rltb x y
  | NInf, (Fin _ | PInf) => true
  | Fin _, PInf => true
  | _, _ => false
  end.

Definition gt (a b : number) : bool := lt b a.

(** [a <= b]. *)
Definition le (a b : number) : bool :=
  match a, b with
  | NaN, _ | _, NaN => false
  | Fin x, Fin y => Rleb x y
  | NInf, _ => true
  | _, PInf => true
  | _, _ => false
  end.

Definition ge (a b : number) : bool := le b a.

(** [a === b] on numbers. *)
Definition eq (a b : number) : bool :=
  match a, b with
  | Fin x, Fin y => Reqb x y
  | PInf, PInf | NInf, NInf => true
  | _, _ => false
  end.

Definition neg (a : number) : number :=
  match a with
  | Fin x => Fin (- x)
  | PInf => NInf
  | NInf => PInf
  | NaN => NaN
  end.

Definition add (a b : number) : number :=
  match a, b with
  | NaN, _ | _, NaN => NaN
  | Fin x, Fin y => Fin (x + y)
  | PInf, NInf | NInf, PInf => NaN
  | PInf, _ | _, PInf => PInf
  | NInf, _ | _, NInf => NInf
  end.

Definition sub (a b : number) : number := add a (neg b).

(** [Infinity * r] for a finite [r]: the sign of [r] decides, zero gives NaN. *)
Definition inf_times (r : R) : number :=
  if Rlt_dec 0 r then PInf else if Rlt_dec r 0 then NInf else NaN.

Definition mul (a b : number) : number :=
  match a, b with
  | NaN, _ | _, NaN => NaN
  | Fin x, Fin y => Fin (x * y)
  | Fin x, PInf | PInf, Fin x => inf_times x
  | Fin x, NInf | NInf, Fin x => inf_times (- x)
  | PInf, PInf | NInf, NInf => PInf
  | PInf, NInf | NInf, PInf => NInf
  end.

(** [a / b]: a finite non-zero numerator over zero is an infinity, [0 / 0]
    and [Infinity / Infinity] are NaN. *)
Definition div (a b : number) : number :=
  match a, b with
  | NaN, _ | _, NaN => NaN
  | Fin x, Fin y => if Req_dec_T y 0 then inf_times x else Fin (x / y)
  | Fin _, (PInf | NInf) => Fin 0
  | PInf, Fin y => if Rlt_dec y 0 then NInf else PInf
  | NInf, Fin y => if Rlt_dec y 0 then PInf else NInf
  | _, _ => NaN
  end.

(** Truncation towards zero, used by the remainder. *)
Definition Ztrunc (x : R) : Z := if Rle_dec 0 x then Zfloor x else Zceil x.

(** [a % b]: the result takes the sign of the dividend. *)
Definition rem (a b : number) : number :=
  match a, b with
  | Fin x, Fin y =>
      if Req_dec_T y 0 then NaN else Fin (x - y * IZR (Ztrunc (x / y)))
  | Fin x, (PInf | NInf) => Fin x
  | _, _ => NaN
  end.

(** [a || b] on numbers: [a] is falsy when it is zero or NaN. *)
Definition or_else (a b : number) : number :=
  match a with
  | NaN => b
  | Fin x => if Req_dec_T x 0 then b else a
  | _ => a
  end.

Module Math.

Definition PI : number := Fin Rtrigo1.PI.

Definition max (a b : number) : number :=
  match a, b with
  | NaN, _ | _, NaN => NaN
  | _, _ => if lt a b then b else a
  end.

Definition min (a b : number) : number :=
  match a, b with
  | NaN, _ | _, NaN => NaN
  | _, _ => if lt b a then b else a
  end.

(** [Math.round x] is [floor (x + 0.5)]. *)
Definition round (a : number) : number :=
  match a with
  | Fin x => Fin (IZR (Zfloor (x + / 2)))
  | _ => a
  end.

Definition sqrt (a : number) : number :=
  match a with
  | Fin x => if Rlt_dec x 0 then NaN else Fin (R_sqrt.sqrt x)
  | PInf => PInf
  | _ => NaN
  end.

Definition sin (a : number) : number :=
  match a with Fin x => Fin (Rtrigo_def.sin x) | _ => NaN end.

Definition cos (a : number) : number :=
  match a with Fin x => Fin (Rtrigo_def.cos x) | _ => NaN end.

Definition acos (a : number) : number :=
  match a with
  | Fin x => if Rlt_dec x (-1) then NaN
             else if Rlt_dec 1 x then NaN else Fin (Ratan.acos x)
  | _ => NaN
  end.

(** The two-argument arctangent on reals, [y] first, value in (-PI, PI]. *)
Definition Ratan2 (y x : R) : R :=
  if Rlt_dec 0 x then atan (y / x)
  else if Rlt_dec x 0 then
    (if Rle_dec 0 y then atan (y / x) + Rtrigo1.PI
     else atan (y / x) - Rtrigo1.PI)
  else if Rlt_dec 0 y then Rtrigo1.PI / 2
  else if Rlt_dec y 0 then - (Rtrigo1.PI / 2)
  else 0.

Definition atan2 (a b : number) : number :=
  match a, b with
  | NaN, _ | _, NaN => NaN
  | Fin y, Fin x => Fin (Ratan2 y x)
  | Fin y, PInf => Fin 0
  | Fin y, NInf => if Rle_dec 0 y then Fin Rtrigo1.PI else Fin (- Rtrigo1.PI)
  | PInf, Fin _ => Fin (Rtrigo1.PI / 2)
  | NInf, Fin _ => Fin (- (Rtrigo1.PI / 2))
  | PInf, PInf => Fin (Rtrigo1.PI / 4)
  | PInf, NInf => Fin (3 * Rtrigo1.PI / 4)
  | NInf, PInf => Fin (- (Rtrigo1.PI / 4))
  | NInf, NInf => Fin (- (3 * Rtrigo1.PI / 4))
  end.

End Math.

(** A finite number lying in the closed interval [[lo, hi]]. *)
Definition within (lo hi : R) (a : number) : Prop :=
  exists x, a = Fin x /\ lo <= x <= hi.


End JS.

Import JS.

Declare Scope js_scope.
Delimit Scope js_scope with js.
Notation "a + b" := (JS.add a b) : js_scope.
Notation "a - b" := (JS.sub a b) : js_scope.
Notation "a * b" := (JS.mul a b) : js_scope.
Notation "a / b" := (JS.div a b) : js_scope.
Notation "a <? b" := (JS.lt a b) (at level 70) : js_scope.
Notation "a >? b" := (JS.gt a b) (at level 70) : js_scope.
Notation "a <=? b" := (JS.le a b) (at level 70) : js_scope.
Notation "a >=? b" := (JS.ge a b) (at level 70) : js_scope.

(** ** [types.ts] *)

Module Types.

Inductive ShotType : Type := long | medium | close | extreme.

Record CameraSettings : Type := {
  azimuth : number;     (* 0-360 degrees *)
  elevation : number;   (* -30 to 60 degrees *)
  distance : number;    (* 0.6 to 1.4 *)
  shotType : ShotType
}.

Record GenerationState : Type := {
  isGenerating : bool;
  error : option string;
  outputImageUrls : list string
}.

(** Object spread with one field replaced: [{ ...p, azimuth: v }] and so on. *)
Definition with_azimuth (v : number) (p : CameraSettings) : CameraSettings :=
  {| azimuth := v; elevation := elevation p;
     distance := distance p; shotType := shotType p |}.

Definition with_elevation (v : number) (p : CameraSettings) : CameraSettings :=
  {| azimuth := azimuth p; elevation := v;
     distance := distance p; shotType := shotType p |}.

Definition with_distance (v : number) (p : CameraSettings) : CameraSettings :=
  {| azimuth := azimuth p; elevation := elevation p;
     distance := v; shotType := shotType p |}.

End Types.

Import Types.

(** ** The parts of three.js the viewer calls

    [Vector3], [MathUtils.clamp] and [Ray.intersectSphere] belong to the
    three.js library; they are written out here as the library defines them,
    as pure functions (the source clones before every mutating call whose
    receiver is used again). *)

Module THREE.

Record Vector3 : Type := { x : number; y : number; z : number }.

Definition zero3 : Vector3 := {| x := Fin 0; y := Fin 0; z := Fin 0 |}.

Definition dot (a b : Vector3) : number :=
  (x a * x b + y a * y b + z a * z b)%js.

Definition length (a : Vector3) : number :=
  Math.sqrt (x a * x a + y a * y a + z a * z a)%js.

Definition multiplyScalar (a : Vector3) (s : number) : Vector3 :=
  {| x := (x a * s)%js; y := (y a * s)%js; z := (z a * s)%js |}.

Definition divideScalar (a : Vector3) (s : number) : Vector3 :=
  multiplyScalar a (Fin 1 / s)%js.

(** [normalize] divides by [length() || 1]. *)
Definition normalize (a : Vector3) : Vector3 :=
  divideScalar a (or_else (length a) (Fin 1)).

Definition add (a b : Vector3) : Vector3 :=
  {| x := (x a + x b)%js; y := (y a + y b)%js; z := (z a + z b)%js |}.

Definition sub (a b : Vector3) : Vector3 :=
  {| x := (x a - x b)%js; y := (y a - y b)%js; z := (z a - z b)%js |}.

Definition negate (a : Vector3) : Vector3 :=
  {| x := JS.neg (x a); y := JS.neg (y a); z := JS.neg (z a) |}.


Module MathUtils.

(** [clamp(value, min, max)] is [Math.max(min, Math.min(max, value))]. *)
Definition clamp (value lo hi : number) : number :=
  Math.max lo (Math.min hi value).

End MathUtils.

Record Ray : Type := { origin : Vector3; direction : Vector3 }.

Record Sphere : Type := { center : Vector3; sphere_radius : number }.

(** [ray.at(t, target)]: the point [origin + direction * t]. *)
Definition at_ (r : Ray) (t : number) : Vector3 :=
  add (origin r) (multiplyScalar (direction r) t).

(** [ray.intersectSphere(sphere, target)].  The library returns [null] and
    leaves [target] untouched on a miss, and writes the hit point into
    [target] otherwise; [None] stands for [null]. *)
Definition intersectSphere (r : Ray) (s : Sphere) : option Vector3 :=
  let v := sub (center s) (origin r) in
  let tca := dot v (direction r) in
  let d2 := (dot v v - tca * tca)%js in
  let radius2 := (sphere_radius s * sphere_radius s)%js in
  if (d2 >? radius2)%js then None
  else
    let thc := Math.sqrt (radius2 - d2)%js in
    let t0 := (tca - thc)%js in
    let t1 := (tca + thc)%js in
    if (t1 <? Fin 0)%js then None
    else if (t0 <? Fin 0)%js then Some (at_ r t1)
    else Some (at_ r t0).

(** The content of a [target] vector after [intersectSphere] ran on it. *)
Definition target_after (hit : option Vector3) (target : Vector3) : Vector3 :=
  match hit with Some p => p | None => target end.

End THREE.

(** ** [services/geminiService.ts] *)

Module GeminiService.

Inductive Result (A : Type) : Type :=
| Ok (a : A)
| Throw (message : string).
Arguments Ok {A} a.
Arguments Throw {A} message.

Record InlineData : Type := { mimeType : string; data : string }.

Record Part : Type := { inlineData : option InlineData; text : option string }.

Record Request : Type := {
  req_images : list string;
  req_prompt : string;
  req_aspectRatio : string
}.

(** What [ai.models.generateContent] does with a request: the promise is
    rejected with a message, or it resolves to a response whose
    [candidates?.[0]?.content?.parts] is a list of parts or undefined. *)
Inductive ApiOutcome : Type :=
| Rejected (message : string)
| Response (parts : option (list Part)).

(** The external service: its outcome for the [n]-th request it receives. *)
Definition Api : Type := nat -> Request -> ApiOutcome.

Definition noImageMessage : string :=
  "模型未返回图像，请检查输入或稍后重试。".

(** The scan of the parts for the first inline image (lines 43-49). *)
Fixpoint firstImageUrl (parts : list Part) : string :=
  match parts with
  | [] => ""
  | p :: rest =>
      match inlineData p with
      | Some d => "data:image/png;base64," ++ data d
      | None => firstImageUrl rest
      end
  end.

(** [generateAngledImage]; [log] is the list of requests sent so far, the
    new request is appended to it.  The request is recorded by its three
    arguments, of which the payload of lines 15-31 is a function. *)
Definition generateAngledImage (api : Api) (log : list Request)
    (base64Images : list string) (prompt aspectRatio : string)
  : Result string * list Request :=
  let req := {| req_images := base64Images; req_prompt := prompt;
                req_aspectRatio := aspectRatio |} in
  let log' := (log ++ [req])%list in
  match api (List.length log) req with
  | Rejected m => (Throw m, log')
  | Response parts =>
      let imageUrl :=
        firstImageUrl (match parts with Some ps => ps | None => [] end) in
      if String.eqb imageUrl "" then (Throw noImageMessage, log')
      else (Ok imageUrl, log')
  end.

End GeminiService.

(** ** [components/CameraViewer] *)

Module CameraViewer.

Import THREE.

Definition VISUAL_SCALE : number := Fin 2.5.

Inductive DragMode : Type := none | orbit | distance_mode.

(** The values [InteractiveScene] derives from the settings on every render. *)
Definition phi (s : CameraSettings) : number :=
  ((Fin 90 - elevation s) * (Math.PI / Fin 180))%js.

Definition theta (s : CameraSettings) : number :=
  (azimuth s * (Math.PI / Fin 180))%js.

Definition radius (s : CameraSettings) : number :=
  (distance s * VISUAL_SCALE)%js.

(** The camera position on the sphere. *)
Definition cameraPos (s : CameraSettings) : Vector3 :=
  {| x := (radius s * Math.sin (phi s) * Math.sin (theta s))%js;
     y := (radius s * Math.cos (phi s))%js;
     z := (radius s * Math.sin (phi s) * Math.cos (theta s))%js |}.

(** [newAzim] of the orbit branch: the azimuthal angle of [target] in
    degrees, with 360 added when it is negative. *)
Definition newAzim (target : Vector3) : number :=
  let newTheta := Math.atan2 (x target) (z target) in
  let a := (newTheta * Fin 180 / Math.PI)%js in
  if (a <? Fin 0)%js then (a + Fin 360)%js else a.

(** [newElev] of the orbit branch: 90 minus the polar angle in degrees. *)
Definition newElev (target : Vector3) : number :=
  let r := length target in
  let newPhi := Math.acos (MathUtils.clamp (y target / r)%js (Fin (-1)) (Fin 1)) in
  (Fin 90 - (newPhi * Fin 180 / Math.PI))%js.

(** The orbit branch once [intersectSphere] has run on [target]; [None] when
    [onSettingsChange] is not called. *)
Definition orbitUpdate (settings : CameraSettings) (target : Vector3)
  : option CameraSettings :=
  if (length target >? Fin 0)%js then
    Some {| azimuth := JS.rem (Math.round (newAzim target)) (Fin 360);
            elevation :=
              MathUtils.clamp (Math.round (newElev target)) (Fin (-30)) (Fin 60);
            distance := distance settings;
            shotType := shotType settings |}
  else None.

(** The denominator [1 - dot * dot] of the distance branch. *)
Definition zoomDenominator (settings : CameraSettings) (ray : Ray) : number :=
  let currentDir := normalize (cameraPos settings) in
  let d := dot (direction ray) currentDir in
  (Fin 1 - d * d)%js.

(** [newRadius] of the distance branch. *)
Definition newRadius (settings : CameraSettings) (ray : Ray) : number :=
  let currentDir := normalize (cameraPos settings) in
  let rayDir := direction ray in
  let rayOrigin := origin ray in
  let d := dot rayDir currentDir in
  let t := (dot (negate rayOrigin) (sub currentDir (multiplyScalar rayDir d))
            / zoomDenominator settings ray)%js in
  MathUtils.clamp
    (length (add (cameraPos settings) (multiplyScalar currentDir t))
     / VISUAL_SCALE)%js
    (Fin 0.6) (Fin 1.4).

(** [handlePointerMove]: the argument [onSettingsChange] is called with, or
    [None] when it is not called.  [ray] is the ray [raycaster.setFromCamera]
    builds from the pointer. *)
Definition handlePointerMove (dragMode : DragMode) (settings : CameraSettings)
    (ray : Ray) : option CameraSettings :=
  match dragMode with
  | none => None
  | orbit =>
      let sphere := {| center := zero3; sphere_radius := radius settings |} in
      let target := target_after (intersectSphere ray sphere) zero3 in
      orbitUpdate settings target
  | distance_mode =>
      Some (with_distance (newRadius settings ray) settings)
  end.

(** The drag mode transitions of the scene. *)
Inductive PointerEvent : Type :=
| PointerDownCameraHandle
| PointerDownDistanceHandle
| PointerUp
| PointerLeave.

Definition dragStep (m : DragMode) (e : PointerEvent) : DragMode :=
  match e with
  | PointerDownCameraHandle => orbit
  | PointerDownDistanceHandle => distance_mode
  | PointerUp | PointerLeave => none
  end.

(** *** [generatePrompt] *)

Definition horizontalDesc (yaw : number) : string :=
  if ((yaw >=? Fin 337.5) || (yaw <? Fin 22.5))%js then "Front view (0°)"
  else if ((yaw >=? Fin 22.5) && (yaw <? Fin 67.5))%js then "Front-right 45° angle"
  else if ((yaw >=? Fin 67.5) && (yaw <? Fin 112.5))%js then "Right side 90° profile"
  else if ((yaw >=? Fin 112.5) && (yaw <? Fin 157.5))%js then "Rear-right 135° angle"
  else if ((yaw >=? Fin 157.5) && (yaw <? Fin 202.5))%js then "Back view 180°"
  else if ((yaw >=? Fin 202.5) && (yaw <? Fin 247.5))%js then "Rear-left 225° angle"
  else if ((yaw >=? Fin 247.5) && (yaw <? Fin 292.5))%js then "Left side 270° profile"
  else "Front-left 315° angle".

Definition verticalDesc (pitch : number) : string :=
  if (pitch >? Fin 45)%js then "Bird's eye view (High overhead)"
  else if (pitch >? Fin 15)%js then "High angle shot looking down"
  else if (pitch <? Fin (-15))%js then "Low angle hero shot looking up"
  else "Eye-level horizontal view".

Definition shotDesc (t : ShotType) : string :=
  match t with
  | long => "Wide shot showing more context"
  | medium => "Medium shot, standard framing"
  | close => "Close-up shot focusing on detail"
  | extreme => "Extreme close-up macro detail"
  end.

Section Prompt.

(** The conversion of a number to a string that a template literal applies. *)
Variable numberToString : number -> string.

Definition generatePrompt (settings : CameraSettings) : string :=
  let yaw := azimuth settings in
  let pitch := elevation settings in
  ("Product photography, Camera Yaw: " ++ numberToString yaw
   ++ " degrees, Camera Pitch: " ++ numberToString pitch ++ " degrees. "
   ++ horizontalDesc yaw ++ ", " ++ verticalDesc pitch ++ ", "
   ++ shotDesc (shotType settings)
   ++ ". Pure white solid background, high-end studio lighting, sharp focus, volumetric lighting, spatial consistency.")%string.

End Prompt.

End CameraViewer.

(** ** [App.tsx] *)

Module App.

Import THREE CameraViewer GeminiService.

(** [Array.prototype.slice(start, end)]: a negative index counts from the
    end of the array. *)
Definition slice {A : Type} (l : list A) (start stop : Z) : list A :=
  let len := Z.of_nat (List.length l) in
  let rel k := if (k <? 0)%Z then Z.max (len + k) 0 else Z.min k len in
  let from := rel start in
  let upto := rel stop in
  firstn (Z.to_nat (upto - from)) (skipn (Z.to_nat from) l).

(** [l.filter((_, i) => i !== index)]. *)
Fixpoint removeAt {A : Type} (index : nat) (l : list A) : list A :=
  match l, index with
  | [], _ => []
  | _ :: t, O => t
  | h :: t, S i => h :: removeAt i t
  end.

(** *** [EditableNumber] *)

Section EditableNumber.

(** The global [parseFloat]; NaN when the text does not start with a number. *)
Variable parseFloat : string -> number.

(** [handleBlur]: the value [onChange] is called with. *)
Definition handleBlur (tempValue : string) (value min max : number) : number :=
  let num := parseFloat tempValue in
  let num := if isNaN num then value else num in
  Math.min (Math.max num min) max.

End EditableNumber.

(** *** State of the component *)

Record AppState : Type := {
  inputImages : list string;
  settings : CameraSettings;
  batchSize : nat;
  aspectRatio : string;
  genState : GenerationState;
  (* results of the [FileReader]s that have been started and not yet fired *)
  readers : list string
}.

Definition initialSettings : CameraSettings :=
  {| azimuth := Fin 45; elevation := Fin 35;
     distance := Fin 1.0; shotType := medium |}.

Definition initialState : AppState :=
  {| inputImages := [];
     settings := initialSettings;
     batchSize := 1;
     aspectRatio := "16:9";
     genState := {| isGenerating := false; error := None;
                    outputImageUrls := [] |};
     readers := [] |}.

Definition with_inputImages (imgs : list string) (st : AppState) : AppState :=
  {| inputImages := imgs; settings := settings st; batchSize := batchSize st;
     aspectRatio := aspectRatio st; genState := genState st;
     readers := readers st |}.

Definition with_readers (rs : list string) (st : AppState) : AppState :=
  {| inputImages := inputImages st; settings := settings st;
     batchSize := batchSize st; aspectRatio := aspectRatio st;
     genState := genState st; readers := rs |}.

(** *** Reference images *)

(** [handleFileUpload]; a file is given by the data URL it reads to, [None]
    is a null [e.target.files].  The selected files start reading; their
    [onload] handlers fire later, one at a time and in any order. *)
Definition handleFileUpload (files : option (list string)) (st : AppState)
  : AppState :=
  match files with
  | Some fs =>
      let remainingSlots := (3 - Z.of_nat (List.length (inputImages st)))%Z in
      let filesToProcess := slice fs 0 remainingSlots in
      with_readers (readers st ++ filesToProcess) st
  | None => st
  end.

(** [reader.onload] of the [k]-th reader in flight:
    [setInputImages(prev => [...prev, result].slice(0, 3))]. *)
Definition readerOnload (k : nat) (st : AppState) : AppState :=
  match nth_error (readers st) k with
  | Some result =>
      with_inputImages (slice (inputImages st ++ [result]) 0 3)
        (with_readers (removeAt k (readers st)) st)
  | None => st
  end.

Definition removeImage (index : nat) (st : AppState) : AppState :=
  with_inputImages (removeAt index (inputImages st)) st.

Inductive ImageEvent : Type :=
| FileUpload (files : option (list string))
| ReaderLoaded (k : nat)
| RemoveImage (index : nat).

Definition imageStep (st : AppState) (e : ImageEvent) : AppState :=
  match e with
  | FileUpload files => handleFileUpload files st
  | ReaderLoaded k => readerOnload k st
  | RemoveImage index => removeImage index st
  end.

(** *** Pose controls *)

Definition setGameAngle (azim : number) (prev : CameraSettings) : CameraSettings :=
  {| azimuth := azim; elevation := Fin 35;
     distance := distance prev; shotType := shotType prev |}.

Record ShotTypeOption : Type := {
  opt_label : string; opt_value : ShotType; opt_dist : number
}.


Record Direction : Type := { dir_label : string; dir_angle : number }.

Definition directions : list Direction :=
  [ {| dir_label := "左前"; dir_angle := Fin 315 |};
    {| dir_label := "正前"; dir_angle := Fin 0 |};
    {| dir_label := "右前"; dir_angle := Fin 45 |};
    {| dir_label := "正左"; dir_angle := Fin 270 |};
    {| dir_label := "中心"; dir_angle := Fin (-1) |};
    {| dir_label := "正右"; dir_angle := Fin 90 |};
    {| dir_label := "左后"; dir_angle := Fin 225 |};
    {| dir_label := "正后"; dir_angle := Fin 180 |};
    {| dir_label := "右后"; dir_angle := Fin 135 |} ].

(** The center entry renders a label, every other entry a button. *)
Definition isCenter (dir : Direction) : bool := JS.eq (dir_angle dir) (Fin (-1)).

(** [onClick] of a shot-type button. *)
Definition shotTypeClick (opt : ShotTypeOption) (p : CameraSettings)
  : CameraSettings :=
  {| azimuth := azimuth p; elevation := elevation p;
     distance := opt_dist opt; shotType := opt_value opt |}.

(** What reaches [setSettings] from the controls and from the viewer. *)
Inductive PoseEvent : Type :=
| AzimuthCommit (tempValue : string)      (* EditableNumber, min 0 max 360 *)
| ElevationCommit (tempValue : string)    (* EditableNumber, min -30 max 60 *)
| DistanceCommit (tempValue : string)     (* EditableNumber, min 0.6 max 1.4 *)
| AzimuthSlider (value : number)          (* range input, min 0 max 360 *)
| ElevationSlider (value : number)        (* range input, min -30 max 60 *)
| DistanceSlider (value : number)         (* range input, min 0.6 max 1.4 *)
| DirectionClick (dir : Direction)
| ShotTypeClick (opt : ShotTypeOption)
| PointerMove (dragMode : DragMode) (ray : Ray).

Section Pose.

Variable parseFloat : string -> number.

Definition poseStep (p : CameraSettings) (e : PoseEvent) : CameraSettings :=
  match e with
  | AzimuthCommit t =>
      with_azimuth (handleBlur parseFloat t (azimuth p) (Fin 0) (Fin 360)) p
  | ElevationCommit t =>
      with_elevation (handleBlur parseFloat t (elevation p) (Fin (-30)) (Fin 60)) p
  | DistanceCommit t =>
      with_distance (handleBlur parseFloat t (distance p) (Fin 0.6) (Fin 1.4)) p
  | AzimuthSlider v => with_azimuth v p
  | ElevationSlider v => with_elevation v p
  | DistanceSlider v => with_distance v p
  | DirectionClick dir => setGameAngle (dir_angle dir) p
  | ShotTypeClick opt => shotTypeClick opt p
  | PointerMove m ray =>
      match handlePointerMove m p ray with
      | Some p' => p'
      | None => p
      end
  end.

End Pose.

(** *** Generation *)

Definition noImagesMessage : string := "请至少上传一张参考图。".
Definition renderFailedMessage : string := "渲染失败，请重试。".

(** The loop of [handleGenerate] with [n] iterations left: one request at a
    time, the first failure leaves the loop. *)
Fixpoint generateBatch (api : Api) (images : list string)
    (prompt ratio : string) (n : nat) (results : list string)
    (log : list Request) : Result (list string) * list Request :=
  match n with
  | O => (Ok results, log)
  | S n' =>
      match generateAngledImage api log images prompt ratio with
      | (Ok url, log') =>
          generateBatch api images prompt ratio n' (results ++ [url]) log'
      | (Throw m, log') => (Throw m, log')
      end
  end.

Section Generate.

Variable numberToString : number -> string.

(** [handleGenerate]: the successive values of [genState] it sets, in order,
    and the requests sent to the service. *)
Definition handleGenerate (api : Api) (log : list Request) (st : AppState)
  : list GenerationState * list Request :=
  let prev := genState st in
  if (List.length (inputImages st) =? 0)%nat then
    ([ {| isGenerating := isGenerating prev; error := Some noImagesMessage;
          outputImageUrls := outputImageUrls prev |} ], log)
  else
    let started := {| isGenerating := true; error := None;
                      outputImageUrls := [] |} in
    let prompt := generatePrompt numberToString (settings st) in
    match generateBatch api (inputImages st) prompt (aspectRatio st)
            (batchSize st) [] log with
    | (Ok results, log') =>
        ([ started;
           {| isGenerating := false; error := error started;
              outputImageUrls := results |} ], log')
    | (Throw m, log') =>
        ([ started;
           {| isGenerating := false;
              error := Some (if String.eqb m "" then renderFailedMessage else m);
              outputImageUrls := outputImageUrls started |} ], log')
    end.

End Generate.

End App.

(** ** Vocabulary of the properties *)

Module Props.

Import THREE CameraViewer App.

(** The eight horizontal labels, in the order of their sector centres
    0, 45, ..., 315 degrees. *)
Definition sectorLabels : list string :=
  [ "Front view (0°)"; "Front-right 45° angle"; "Right side 90° profile";
    "Rear-right 135° angle"; "Back view 180°"; "Rear-left 225° angle";
    "Left side 270° profile"; "Front-left 315° angle" ]%string.

(** The sector of width 45 centred on a multiple of 45 that holds [a]:
    sector [k] is [[45k - 22.5, 45k + 22.5)], taken modulo 360. *)
Definition sectorIndex (a : R) : Z := (Zfloor ((a + 22.5) / 45) mod 8)%Z.

(** *** Finite poses, vectors and rays *)

Definition mkPose (az el d : R) (t : ShotType) : CameraSettings :=
  {| azimuth := Fin az; elevation := Fin el; distance := Fin d;
     shotType := t |}.

Definition vec (a b c : R) : Vector3 :=
  {| x := Fin a; y := Fin b; z := Fin c |}.

Definition mkRay (ox oy oz dx dy dz : R) : Ray :=
  {| origin := vec ox oy oz; direction := vec dx dy dz |}.

(** The position of the camera as the specification writes it, over the
    reals: [phi = (90 - el) * PI / 180], [theta = az * PI / 180],
    [r = d * 2.5]. *)
Definition Rphi (el : R) : R := (90 - el) * (PI / 180).
Definition Rtheta (az : R) : R := az * (PI / 180).
Definition Rradius (d : R) : R := d * 2.5.

Definition Rposition (az el d : R) : R * R * R :=
  (Rradius d * sin (Rphi el) * sin (Rtheta az),
   Rradius d * cos (Rphi el),
   Rradius d * sin (Rphi el) * cos (Rtheta az)).

(** Clamping on the reals. *)
Definition Rclamp (v lo hi : R) : R :=
  if Rlt_dec v lo then lo else if Rlt_dec hi v then hi else v.

(** Rounding to the nearest integer, halves upwards. *)
Definition Rround (v : R) : Z := Zfloor (v + / 2).

(** The azimuth recovered from a point: the degrees of [atan2 (x, z)],
    with 360 added when negative. *)
Definition Razimuth (tx tz : R) : R :=
  let a := Math.Ratan2 tx tz * 180 / PI in
  if Rlt_dec a 0 then a + 360 else a.

(** The elevation recovered from a point: 90 minus the degrees of
    [acos (clamp (y / |p|, -1, 1))]. *)
Definition Relevation (tx ty tz : R) : R :=
  90 - acos (Rclamp (ty / sqrt (tx * tx + ty * ty + tz * tz)) (-1) 1)
       * 180 / PI.

(** The two parameters of [intersectSphere] for a sphere centred at the
    origin, with [v = center - origin]: [tca = v . direction] and the
    squared distance [d2 = v . v - tca * tca] of the centre to the ray. *)
Definition Rtca (ox oy oz dx dy dz : R) : R :=
  (0 - ox) * dx + (0 - oy) * dy + (0 - oz) * dz.

Definition Rd2 (ox oy oz dx dy dz : R) : R :=
  ((0 - ox) * (0 - ox) + (0 - oy) * (0 - oy) + (0 - oz) * (0 - oz))
  - Rtca ox oy oz dx dy dz * Rtca ox oy oz dx dy dz.

(** The point of a ray at parameter [t]. *)
Definition Rat (ox oy oz dx dy dz t : R) : R * R * R :=
  (ox + dx * t, oy + dy * t, oz + dz * t).

Definition vec3 (p : R * R * R) : Vector3 :=
  let '(a, b, c) := p in vec a b c.

Definition norm2 (p : R * R * R) : R :=
  let '(a, b, c) := p in a * a + b * b + c * c.

(** [intersectSphere] over the reals, for the sphere of radius [r] centred at
    the origin. *)
Definition RintersectSphere (ox oy oz dx dy dz r : R) : option (R * R * R) :=
  let tca := Rtca ox oy oz dx dy dz in
  let d2 := Rd2 ox oy oz dx dy dz in
  if Rlt_dec (r * r) d2 then None
  else
    let thc := sqrt (r * r - d2) in
    if Rlt_dec (tca + thc) 0 then None
    else if Rlt_dec (tca - thc) 0 then Some (Rat ox oy oz dx dy dz (tca + thc))
    else Some (Rat ox oy oz dx dy dz (tca - thc)).

Definition originSphere (r : R) : Sphere :=
  {| center := zero3; sphere_radius := Fin r |}.

(** The ray that starts at twice the point [p] of the sphere of radius [r]
    and points at the origin. *)
Definition radialRay (p : R * R * R) (r : R) : Ray :=
  let '(a, b, c) := p in
  mkRay (2 * a) (2 * b) (2 * c) (- a / r) (- b / r) (- c / r).

(** The pose the orbit branch is claimed to produce from a hit point when
    the azimuth is only wrapped and rounded. *)
Definition claimedOrbitPose (s : CameraSettings) (target : Vector3)
  : CameraSettings :=
  {| azimuth := Math.round (newAzim target);
     elevation :=
       MathUtils.clamp (Math.round (newElev target)) (Fin (-30)) (Fin 60);
     distance := distance s;
     shotType := shotType s |}.

(** *** The distance branch over the reals *)

(** [normalize]: the vector scaled by [1 / (length || 1)]. *)
Definition Rnormalize (p : R * R * R) : R * R * R :=
  let '(a, b, c) := p in
  let n := sqrt (a * a + b * b + c * c) in
  let l := if Req_dec_T n 0 then 1 else n in
  (a * (1 / l), b * (1 / l), c * (1 / l)).

Definition Rdot (p q : R * R * R) : R :=
  let '(a, b, c) := p in
  let '(d, e, f) := q in
  a * d + b * e + c * f.

(** [dot = rayDir . currentDir]. *)
Definition RzoomDot (p dir : R * R * R) : R := Rdot dir (Rnormalize p).

(** The denominator [1 - dot * dot]. *)
Definition RzoomDen (p dir : R * R * R) : R :=
  1 - RzoomDot p dir * RzoomDot p dir.

(** The numerator [(-rayOrigin) . (currentDir - rayDir * dot)]. *)
Definition RzoomNum (p o dir : R * R * R) : R :=
  let '(c1, c2, c3) := Rnormalize p in
  let '(d1, d2, d3) := dir in
  let '(o1, o2, o3) := o in
  let dd := RzoomDot p dir in
  - o1 * (c1 - d1 * dd) + - o2 * (c2 - d2 * dd) + - o3 * (c3 - d3 * dd).

(** The distance the branch stores when the denominator is not zero. *)
Definition RnewRadius (p o dir : R * R * R) : R :=
  let '(p1, p2, p3) := p in
  let '(c1, c2, c3) := Rnormalize p in
  let t := RzoomNum p o dir / RzoomDen p dir in
  let q1 := p1 + c1 * t in
  let q2 := p2 + c2 * t in
  let q3 := p3 + c3 * t in
  Rclamp (sqrt (q1 * q1 + q2 * q2 + q3 * q3) / 2.5) 0.6 1.4.

(** *** A zoom drag with the pointer ray along the camera axis *)

(** The camera on the +Z axis at distance 1. *)
Definition axisPose : CameraSettings := mkPose 0 0 1 medium.

(** A pointer ray from a render camera on the +Z axis, through the centre
    of the screen. *)
Definition axisRay : Ray := mkRay 0 0 10 0 0 (-1).

(** *** A drag towards azimuth 359.75 *)

Definition dragPose : CameraSettings := mkPose 45 35 1 medium.

Definition wrapTarget : R * R * R := Rposition 359.75 0 1.

Definition wrapRay : Ray := radialRay wrapTarget (Rradius 1).

(** *** The pose invariant *)






(** *** Sample inputs *)

(** A stand-in for [parseFloat] that knows two texts. *)
Definition parseTwo (s : string) : number :=
  if String.eqb s "400" then Fin 400
  else if String.eqb s "-7.5" then Fin (-7.5)
  else NaN.

(** A stand-in for the conversion of numbers to strings. *)
Definition showZero (a : number) : string := "0".

(** A service that returns an image for the first request it receives and
    rejects every later one. *)
Definition failingSecond : GeminiService.Api :=
  fun n _ =>
    match n with
    | O => GeminiService.Response
             (Some [ {| GeminiService.inlineData :=
                          Some {| GeminiService.mimeType := "image/png";
                                  GeminiService.data := "QUJD" |};
                        GeminiService.text := None |} ])
    | S _ => GeminiService.Rejected "quota exceeded"
    end.


End Props.

(** ** The rest of the components *)

(** *** The request payload of [generateAngledImage] (lines 15-20) *)

Module GeminiRequest.

Import GeminiService.

(** [s.split(',')]: the pieces of [s] between its commas. *)
Fixpoint splitComma (s : string) : list string :=
  match s with
  | EmptyString => [EmptyString]
  | String c rest =>
      if Ascii.eqb c "," then EmptyString :: splitComma rest
      else
        match splitComma rest with
        | piece :: pieces => String c piece :: pieces
        | [] => [String c EmptyString]
        end
  end.

(** [img.split(',')[1] || img]: the second piece, or the whole string when
    there is none or it is empty. *)
Definition imageData (img : string) : string :=
  match nth_error (splitComma img) 1 with
  | Some piece => if String.eqb piece "" then img else piece
  | None => img
  end.

Definition imageParts (base64Images : list string) : list InlineData :=
  map (fun img => {| mimeType := "image/png"; data := imageData img |})
    base64Images.

(** A string without a comma. *)
Fixpoint commaFree (s : string) : bool :=
  match s with
  | EmptyString => true
  | String c rest => negb (Ascii.eqb c ",") && commaFree rest
  end.

End GeminiRequest.

(** *** The state of [EditableNumber] *)

Module EditableNumber.

Record State : Type := { isEditing : bool; tempValue : string }.

Section Component.

Variable parseFloat : string -> number.
Variable numberToString : number -> string.

(** [useState(false)], [useState(value.toString())]. *)
Definition init (value : number) : State :=
  {| isEditing := false; tempValue := numberToString value |}.

(** [onDoubleClick] of the read-only view. *)
Definition onDoubleClick (value : number) (st : State) : State :=
  {| isEditing := true; tempValue := numberToString (Math.round value) |}.

(** [onChange] of the input. *)
Definition onInput (text : string) (st : State) : State :=
  {| isEditing := isEditing st; tempValue := text |}.

(** [handleBlur], also run by the Enter key: the value [onChange] is called
    with and the next state. *)
Definition onBlur (value min max : number) (st : State) : number * State :=
  (App.handleBlur parseFloat (tempValue st) value min max,
   {| isEditing := false; tempValue := tempValue st |}).

(** The effect that runs after a render with the property [value]. *)
Definition syncEffect (value : number) (st : State) : State :=
  if isEditing st then st
  else {| isEditing := false; tempValue := numberToString value |}.

End Component.

End EditableNumber.

(** *** The scene: drag mode and pose together *)

Module Scene.

Import THREE CameraViewer.

Inductive SceneEvent : Type :=
| Pointer (e : PointerEvent)
| Move (ray : Ray).

(** The drag mode of [InteractiveScene] and the settings of [App]. *)
Definition SceneState : Type := (DragMode * CameraSettings)%type.

Definition sceneStep (st : SceneState) (ev : SceneEvent) : SceneState :=
  match ev with
  | Pointer e => (dragStep (fst st) e, snd st)
  | Move ray =>
      (fst st,
       match handlePointerMove (fst st) (snd st) ray with
       | Some p => p
       | None => snd st
       end)
  end.

(** The position of the distance handle: [cameraPos.clone().multiplyScalar(0.7)]. *)
Definition distanceHandlePos (s : CameraSettings) : Vector3 :=
  multiplyScalar (cameraPos s) (Fin 0.7).

(** The vector [target] holds when every coordinate came out as NaN. *)
Definition nan3 : Vector3 := {| x := NaN; y := NaN; z := NaN |}.

Definition isRelease (ev : SceneEvent) : bool :=
  match ev with
  | Pointer PointerUp | Pointer PointerLeave => true
  | _ => false
  end.

Definition isMove (ev : SceneEvent) : bool :=
  match ev with Move _ => true | Pointer _ => false end.

End Scene.

(** *** What [App] renders from its state *)

Module AppView.

Import App.

(** [isActive] of a direction button. *)
Definition isActive (settings : CameraSettings) (dir : Direction) : bool :=
  JS.eq (Math.round (azimuth settings)) (dir_angle dir).

(** [disabled] of the generate button. *)
Definition generateDisabled (st : AppState) : bool :=
  isGenerating (genState st) || (List.length (inputImages st) =? 0)%nat.

(** The upload button is rendered when [inputImages.length < 3]. *)
Definition uploadShown (st : AppState) : bool :=
  (List.length (inputImages st) <? 3)%nat.

(** The rendered direction buttons. *)
Definition directionButtons : list Direction :=
  filter (fun d => negb (isCenter d)) directions.

(** Where an image of the list or of a reader in flight comes from: every
    file handed to [handleFileUpload] by the events. *)
Fixpoint uploadedFiles (events : list ImageEvent) : list string :=
  match events with
  | [] => []
  | FileUpload (Some fs) :: rest => (fs ++ uploadedFiles rest)%list
  | _ :: rest => uploadedFiles rest
  end.

(** A stand-in for [parseFloat] and one for the conversion to a string that
    agree on the number 1. *)
Definition parseOne (s : string) : number :=
  if String.eqb s "1" then Fin 1 else NaN.

Definition showOne (a : number) : string := "1".

End AppView.

(** ** Facts on JavaScript numbers *)

Ltac rdec :=
  repeat match goal with
  | |- context [Rlt_dec ?a ?b] => destruct (Rlt_dec a b); try lra
  | |- context [Rle_dec ?a ?b] => destruct (Rle_dec a b); try lra
  | |- context [Req_dec_T ?a ?b] => destruct (Req_dec_T a b); try lra
  end.

Ltac js_unfold :=
  unfold THREE.MathUtils.clamp, Math.max, Math.min, JS.sub, JS.gt, JS.ge,
    JS.lt, JS.le, JS.eq, JS.add, JS.neg, JS.mul, JS.div, JS.inf_times,
    JS.or_else, Math.sqrt, JS.Rltb, JS.Rleb, JS.Reqb in *.

Module JSFacts.

Lemma lt_Fin (a b : R) : JS.lt (Fin a) (Fin b) = true <-> a < b.
Proof. js_unfold; rdec; split; (lra || congruence || auto). Qed.

Lemma le_Fin (a b : R) : JS.le (Fin a) (Fin b) = true <-> a <= b.
Proof. js_unfold; rdec; split; (lra || congruence || auto). Qed.

Lemma lt_Fin_false (a b : R) : JS.lt (Fin a) (Fin b) = false <-> b <= a.
Proof. js_unfold; rdec; split; (lra || congruence || auto). Qed.

Lemma add_Fin (a b : R) : JS.add (Fin a) (Fin b) = Fin (a + b).
Proof. reflexivity. Qed.

Lemma sub_Fin (a b : R) : JS.sub (Fin a) (Fin b) = Fin (a - b).
Proof. reflexivity. Qed.

Lemma mul_Fin (a b : R) : JS.mul (Fin a) (Fin b) = Fin (a * b).
Proof. reflexivity. Qed.

Lemma neg_Fin (a : R) : JS.neg (Fin a) = Fin (- a).
Proof. reflexivity. Qed.

Lemma div_Fin (a b : R) : b <> 0 -> JS.div (Fin a) (Fin b) = Fin (a / b).
Proof. intros; js_unfold; rdec; congruence. Qed.

Lemma sqrt_Fin (a : R) : 0 <= a -> Math.sqrt (Fin a) = Fin (sqrt a).
Proof. intros; js_unfold; rdec; reflexivity. Qed.

(** [Math.min (Math.max x lo) hi] and three.js [clamp] on finite values. *)
Lemma minmax_Fin (x lo hi : R) :
  lo <= hi ->
  Math.min (Math.max (Fin x) (Fin lo)) (Fin hi)
  = Fin (if Rlt_dec x lo then lo else if Rlt_dec hi x then hi else x).
Proof.
  intros; js_unfold; rdec; simpl; rdec; first [reflexivity | f_equal; lra].
Qed.

Lemma clamp_Fin (x lo hi : R) :
  lo <= hi ->
  THREE.MathUtils.clamp (Fin x) (Fin lo) (Fin hi)
  = Fin (if Rlt_dec x lo then lo else if Rlt_dec hi x then hi else x).
Proof.
  intros; js_unfold; rdec; simpl; rdec; first [reflexivity | f_equal; lra].
Qed.

Lemma clamp_within (x lo hi : R) :
  lo <= hi -> JS.within lo hi (THREE.MathUtils.clamp (Fin x) (Fin lo) (Fin hi)).
Proof.
  intros H. rewrite clamp_Fin by assumption.
  eexists; split; [reflexivity|]. rdec.
Qed.

Lemma clamp_NaN (lo hi : number) : THREE.MathUtils.clamp NaN lo hi = NaN.
Proof. unfold THREE.MathUtils.clamp, Math.min, Math.max; destruct hi, lo; reflexivity. Qed.

End JSFacts.

(** ** The prompt composer *)

Module PromptFacts.

Import CameraViewer Props.

Lemma sectorIndex_eq (a : R) (k : Z) :
  (0 <= k < 8)%Z -> 45 * IZR k - 22.5 <= a < 45 * IZR k + 22.5 ->
  sectorIndex a = k.
Proof.
  intros Hk Ha. unfold sectorIndex.
  rewrite (Zfloor_eq k).
  - apply Z.mod_small; lia.
  - split.
    + apply Rmult_le_reg_r with 45; [lra|].
      unfold Rdiv. rewrite Rmult_assoc, Rinv_l by lra. lra.
    + apply Rmult_lt_reg_r with 45; [lra|].
      unfold Rdiv. rewrite Rmult_assoc, Rinv_l by lra. lra.
Qed.

Lemma sectorIndex_wrap (a : R) : 337.5 <= a < 360 -> sectorIndex a = 0%Z.
Proof.
  intros Ha. unfold sectorIndex.
  rewrite (Zfloor_eq 8); [reflexivity|].
  split.
  - apply Rmult_le_reg_r with 45; [lra|].
    unfold Rdiv. rewrite Rmult_assoc, Rinv_l by lra. lra.
  - apply Rmult_lt_reg_r with 45; [lra|].
    unfold Rdiv. rewrite Rmult_assoc, Rinv_l by lra. lra.
Qed.

Ltac desc_eval :=
  unfold horizontalDesc, verticalDesc; js_unfold; rdec; simpl; try reflexivity.

(** C6.  On [[0, 360)] the horizontal label is that of the 45-degree-wide
    sector centred on a multiple of 45 in which the azimuth lies (the
    sector of 0 being [[337.5, 360)] and [[0, 22.5)]); 22.4 and 22.6 fall on
    either side of the first boundary, 0 and 359.9 both in the front sector. *)
Theorem horizontal_classification (a : R) :
  0 <= a < 360 ->
  horizontalDesc (Fin a) = nth (Z.to_nat (sectorIndex a)) sectorLabels ""%string
  /\ horizontalDesc (Fin 22.4) = "Front view (0°)"%string
  /\ horizontalDesc (Fin 22.6) = "Front-right 45° angle"%string
  /\ horizontalDesc (Fin 0) = "Front view (0°)"%string
  /\ horizontalDesc (Fin 359.9) = "Front view (0°)"%string.
Proof.
  intros Ha. split; [|repeat split; desc_eval].
  destruct (Rlt_dec a 22.5) as [H0|H0].
  { rewrite (sectorIndex_eq a 0) by (simpl; lia || lra). desc_eval. }
  destruct (Rlt_dec a 67.5) as [H1|H1].
  { rewrite (sectorIndex_eq a 1) by (simpl; lia || lra). desc_eval. }
  destruct (Rlt_dec a 112.5) as [H2|H2].
  { rewrite (sectorIndex_eq a 2) by (simpl; lia || lra). desc_eval. }
  destruct (Rlt_dec a 157.5) as [H3|H3].
  { rewrite (sectorIndex_eq a 3) by (simpl; lia || lra). desc_eval. }
  destruct (Rlt_dec a 202.5) as [H4|H4].
  { rewrite (sectorIndex_eq a 4) by (simpl; lia || lra). desc_eval. }
  destruct (Rlt_dec a 247.5) as [H5|H5].
  { rewrite (sectorIndex_eq a 5) by (simpl; lia || lra). desc_eval. }
  destruct (Rlt_dec a 292.5) as [H6|H6].
  { rewrite (sectorIndex_eq a 6) by (simpl; lia || lra). desc_eval. }
  destruct (Rlt_dec a 337.5) as [H7|H7].
  { rewrite (sectorIndex_eq a 7) by (simpl; lia || lra). desc_eval. }
  rewrite sectorIndex_wrap by lra. desc_eval.
Qed.

Lemma horizontal_classification_witness :
  0 <= 100 < 360 /\
  horizontalDesc (Fin 100) = "Right side 90° profile"%string.
Proof.
  split; [lra|].
  destruct (horizontal_classification 100) as [H _]; [lra|].
  rewrite H. rewrite (sectorIndex_eq 100 2) by (simpl; lia || lra).
  reflexivity.
Defined.

(** C7.  The vertical label follows four disjoint bands of the elevation:
    above 45 overhead, (15, 45] high angle, [-15, 15] eye level, below -15
    low angle; 45.1 is overhead and 45 itself is high angle. *)
Theorem vertical_classification (e : R) :
  (45 < e -> verticalDesc (Fin e) = "Bird's eye view (High overhead)"%string)
  /\ (15 < e <= 45 -> verticalDesc (Fin e) = "High angle shot looking down"%string)
  /\ (-15 <= e <= 15 -> verticalDesc (Fin e) = "Eye-level horizontal view"%string)
  /\ (e < -15 -> verticalDesc (Fin e) = "Low angle hero shot looking up"%string)
  /\ verticalDesc (Fin 45.1) = "Bird's eye view (High overhead)"%string
  /\ verticalDesc (Fin 45.0) = "High angle shot looking down"%string.
Proof.
  repeat split; try intros H; desc_eval.
Qed.

End PromptFacts.

(** ** The numeric field and the preset buttons *)

Module ControlFacts.

Import CameraViewer App.



(** The hypothesis on the current value matters: the field of the distance
    never restores the 0.5 that the extreme preset stored. *)
Lemma handleBlur_restores_clamped (parseFloat : string -> number) (t : string) :
  isNaN (parseFloat t) = true ->
  handleBlur parseFloat t (Fin 0.5) (Fin 0.6) (Fin 1.4) = Fin 0.6.
Proof.
  intros H. unfold handleBlur. cbv zeta. rewrite H.
  rewrite JSFacts.minmax_Fin by lra. rdec; reflexivity.
Qed.

(** C9.  A direction button stores its angle as the azimuth and 35 as the
    elevation, and keeps the distance and the shot type. *)
Theorem direction_button_frame (parseFloat : string -> number)
    (a : number) (dir : Direction) (prev : CameraSettings) :
  azimuth (setGameAngle a prev) = a
  /\ elevation (setGameAngle a prev) = Fin 35
  /\ distance (setGameAngle a prev) = distance prev
  /\ shotType (setGameAngle a prev) = shotType prev
  /\ poseStep parseFloat prev (DirectionClick dir)
     = setGameAngle (dir_angle dir) prev.
Proof. repeat split. Qed.

(** The buttons that exist carry the eight multiples of 45. *)
Lemma direction_buttons :
  map dir_angle (filter (fun d => negb (isCenter d)) directions)
  = [Fin 315; Fin 0; Fin 45; Fin 270; Fin 90; Fin 225; Fin 180; Fin 135].
Proof.
  unfold directions, isCenter. simpl. js_unfold. rdec. reflexivity.
Qed.

End ControlFacts.

(** ** Batch generation *)

Module GenerateFacts.

Import GeminiService App.

Lemma generateAngledImage_log (api : Api) (log : list Request)
    (imgs : list string) (prompt ratio : string) :
  snd (generateAngledImage api log imgs prompt ratio)
  = (log ++ [ {| req_images := imgs; req_prompt := prompt;
                 req_aspectRatio := ratio |} ])%list.
Proof.
  unfold generateAngledImage.
  destruct (api _ _); [reflexivity|].
  destruct (String.eqb _ _); reflexivity.
Qed.



(** A batch that runs to its end shows its results only in the last state
    that is set. *)
Lemma generateBatch_calls (api : Api) (imgs : list string)
    (prompt ratio : string) (n : nat) :
  forall (results : list string) (log : list Request),
    (List.length (snd (generateBatch api imgs prompt ratio n results log))
     <= List.length log + n)%nat.
Proof.
  induction n as [|n IH]; intros results log; simpl.
  - lia.
  - pose proof (generateAngledImage_log api log imgs prompt ratio) as L.
    destruct (generateAngledImage api log imgs prompt ratio) as [[u|e] l];
      simpl in L; subst l.
    + specialize (IH (results ++ [u])%list
                     (log ++ [ {| req_images := imgs; req_prompt := prompt;
                                  req_aspectRatio := ratio |} ])%list).
      rewrite length_app in IH. simpl in IH. lia.
    + simpl. rewrite length_app. simpl. lia.
Qed.

End GenerateFacts.

(** ** Reference images *)

Module ImageFacts.

Import App.

Lemma slice_prefix {A : Type} (l : list A) (n : Z) :
  (0 <= n)%Z -> slice l 0 n = firstn (Z.to_nat n) l.
Proof.
  intros Hn. unfold slice. cbv zeta.
  replace (0 <? 0)%Z with false by reflexivity.
  replace (n <? 0)%Z with false by (symmetry; apply Z.ltb_ge; exact Hn).
  rewrite (Z.min_l 0) by lia. rewrite Z.sub_0_r. simpl skipn.
  destruct (Z.le_ge_cases n (Z.of_nat (List.length l))) as [H|H].
  - rewrite Z.min_l by assumption. reflexivity.
  - rewrite Z.min_r by assumption. rewrite Nat2Z.id.
    rewrite firstn_all. symmetry. apply firstn_all2. lia.
Qed.

Lemma removeAt_length {A : Type} (k : nat) (l : list A) :
  (List.length (removeAt k l) <= List.length l)%nat.
Proof.
  revert k; induction l as [|h t IH]; intros [|k]; simpl; try lia.
  specialize (IH k). lia.
Qed.

Lemma readerOnload_truncates (k : nat) (st : AppState) (result : string) :
  nth_error (readers st) k = Some result ->
  inputImages (readerOnload k st) = firstn 3 (inputImages st ++ [result]).
Proof.
  intros H. unfold readerOnload. rewrite H. simpl.
  rewrite slice_prefix by lia. reflexivity.
Qed.

Lemma imageStep_at_most_three (st : AppState) (e : ImageEvent) :
  (List.length (inputImages st) <= 3)%nat ->
  (List.length (inputImages (imageStep st e)) <= 3)%nat.
Proof.
  intros H. destruct e as [files|k|index]; simpl.
  - unfold handleFileUpload. destruct files; simpl; exact H.
  - unfold readerOnload.
    destruct (nth_error (readers st) k) as [result|] eqn:E; [|exact H].
    simpl. rewrite slice_prefix by lia.
    rewrite length_firstn. lia.
  - pose proof (removeAt_length index (inputImages st)). lia.
Qed.

Lemma reachable_at_most_three (events : list ImageEvent) :
  forall st, (List.length (inputImages st) <= 3)%nat ->
    (List.length (inputImages (fold_left imageStep events st)) <= 3)%nat.
Proof.
  induction events as [|e es IH]; intros st H; simpl.
  - exact H.
  - apply IH. apply imageStep_at_most_three. exact H.
Qed.

(** C10.  After any sequence of uploads, reader completions and removals
    the list holds at most three images; an upload starts readers only for
    the first [3 - length] selected files, and a completed reader appends its
    result and keeps the first three entries. *)
Theorem reference_images_at_most_three (events : list ImageEvent)
    (fs : list string) (k : nat) :
  let st := fold_left imageStep events initialState in
  (List.length (inputImages st) <= 3)%nat
  /\ handleFileUpload (Some fs) st
     = with_readers
         (readers st ++ firstn (3 - List.length (inputImages st)) fs) st
  /\ (forall result, nth_error (readers st) k = Some result ->
        inputImages (readerOnload k st)
        = firstn 3 (inputImages st ++ [result])).
Proof.
  intros st.
  assert (H : (List.length (inputImages st) <= 3)%nat).
  { apply reachable_at_most_three. simpl. lia. }
  split; [exact H|]. split.
  - unfold handleFileUpload. rewrite slice_prefix by lia.
    replace (Z.to_nat (3 - Z.of_nat (List.length (inputImages st))))
      with (3 - List.length (inputImages st))%nat by lia.
    reflexivity.
  - intros result. apply readerOnload_truncates.
Qed.

(** Five files selected at once while one image is held: two readers start,
    and when both have fired the list is full. *)
Example upload_five_files :
  let st := fold_left imageStep
              [ FileUpload (Some ["a"; "b"; "c"; "d"; "e"]);
                ReaderLoaded 1; ReaderLoaded 0 ]%string
              (with_inputImages ["z"%string] initialState) in
  inputImages st = ["z"; "b"; "a"]%string /\ readers st = [].
Proof. split; reflexivity. Qed.

(** Two uploads before any reader fires start five readers in all; the
    truncation on completion still keeps three images. *)
Example upload_twice_before_load :
  let st := fold_left imageStep
              [ FileUpload (Some ["a"; "b"; "c"]);
                FileUpload (Some ["d"; "e"]);
                ReaderLoaded 0; ReaderLoaded 0; ReaderLoaded 0;
                ReaderLoaded 0; ReaderLoaded 0 ]%string
              initialState in
  inputImages st = ["a"; "b"; "c"]%string /\ readers st = [].
Proof. split; reflexivity. Qed.

End ImageFacts.

(** ** Real geometry behind the viewer *)

Module RealGeom.

Lemma PI_gt_3 : 3 < PI.
Proof. pose proof PI2_3_2. lra. Qed.

Lemma tan_shift (k s c : R) :
  0 < k -> c <> 0 -> (k * s) / (k * c) = s / c.
Proof. intros; field; split; lra. Qed.

(** [Ratan2] recovers the angle of a point given in polar form. *)
Lemma Ratan2_polar (k t : R) :
  0 < k -> - PI < t <= PI -> Math.Ratan2 (k * sin t) (k * cos t) = t.
Proof.
  intros Hk Ht. pose proof PI_RGT_0 as Hpi.
  unfold Math.Ratan2.
  destruct (Rtotal_order t (PI / 2)) as [Hlt|[Heq|Hgt]].
  - destruct (Rtotal_order t (- (PI / 2))) as [Hlt'|[Heq'|Hgt']].
    + (* (-PI, -PI/2) *)
      assert (Hc : cos (t + PI) > 0) by (apply cos_gt_0; lra).
      assert (Hs : sin (t + PI) > 0) by (apply sin_gt_0; lra).
      rewrite neg_cos in Hc. rewrite neg_sin in Hs.
      assert (k * cos t < 0) by nra.
      assert (k * sin t < 0) by nra.
      rdec.
      rewrite tan_shift by lra.
      replace (sin t / cos t) with (tan (t + PI)).
      * rewrite atan_tan by lra. lra.
      * unfold tan. rewrite neg_sin, neg_cos. field. lra.
    + (* -PI/2 *)
      subst t. rewrite cos_neg, sin_neg, cos_PI2, sin_PI2.
      rdec.
    + (* (-PI/2, PI/2) *)
      assert (Hc : 0 < cos t) by (apply cos_gt_0; lra).
      assert (0 < k * cos t) by nra.
      rdec.
      rewrite tan_shift by lra.
      change (sin t / cos t) with (tan t).
      apply atan_tan. lra.
  - subst t. rewrite cos_PI2, sin_PI2. rdec.
  - (* (PI/2, PI] *)
    assert (Hc : cos t < 0) by (apply cos_lt_0; lra).
    assert (Hs : 0 <= sin t) by (apply sin_ge_0; lra).
    assert (k * cos t < 0) by nra.
    assert (0 <= k * sin t) by nra.
    assert (Es : sin t = - sin (t - PI)).
    { rewrite <- neg_sin. f_equal. ring. }
    assert (Ec : cos t = - cos (t - PI)).
    { rewrite <- neg_cos. f_equal. ring. }
    rdec.
    rewrite tan_shift by lra.
    replace (sin t / cos t) with (tan (t - PI)).
    + rewrite atan_tan by lra. lra.
    + unfold tan. rewrite Es, Ec. field. lra.
Qed.

Lemma atan_nonpos (r : R) : r <= 0 -> atan r <= 0.
Proof.
  intros [H|H].
  - pose proof (atan_increasing r 0 H) as Hi. rewrite atan_0 in Hi. lra.
  - subst r. rewrite atan_0. lra.
Qed.

Lemma atan_nonneg (r : R) : 0 <= r -> 0 <= atan r.
Proof.
  intros [H|H].
  - pose proof (atan_increasing 0 r H) as Hi. rewrite atan_0 in Hi. lra.
  - subst r. rewrite atan_0. lra.
Qed.

Lemma Ratan2_bound (y x : R) : - PI <= Math.Ratan2 y x <= PI.
Proof.
  pose proof PI_RGT_0. pose proof (atan_bound (y / x)) as Hb.
  unfold Math.Ratan2. rdec.
  - assert (atan (y / x) <= 0); [|lra].
    apply atan_nonpos.
    assert (/ x < 0) by (apply Rinv_lt_0_compat; lra).
    unfold Rdiv. nra.
  - assert (0 <= atan (y / x)); [|lra].
    apply atan_nonneg.
    assert (/ x < 0) by (apply Rinv_lt_0_compat; lra).
    unfold Rdiv. nra.
Qed.

End RealGeom.

(** ** The viewer on finite inputs *)

Module ViewerFacts.

Import THREE CameraViewer App Props.

Lemma PI_neq0 : PI <> 0.
Proof. pose proof PI_RGT_0. lra. Qed.

Lemma length_vec (a b c : R) :
  length (vec a b c) = Fin (sqrt (a * a + b * b + c * c)).
Proof.
  unfold length, vec. cbn [x y z JS.mul JS.add].
  apply JSFacts.sqrt_Fin. nra.
Qed.

Lemma cameraPos_mkPose (az el d : R) (t : ShotType) :
  cameraPos (mkPose az el d t) = vec3 (Rposition az el d).
Proof.
  unfold cameraPos, radius, phi, theta, mkPose, VISUAL_SCALE, Math.PI.
  cbn [azimuth elevation distance].
  rewrite JSFacts.div_Fin by lra.
  reflexivity.
Qed.

Lemma norm2_position (az el d : R) :
  norm2 (Rposition az el d) = Rradius d * Rradius d.
Proof.
  unfold norm2, Rposition.
  pose proof (sin2_cos2 (Rphi el)) as Hp.
  pose proof (sin2_cos2 (Rtheta az)) as Ht.
  unfold Rsqr in Hp, Ht.
  set (sp := sin (Rphi el)) in *. set (cp := cos (Rphi el)) in *.
  set (st := sin (Rtheta az)) in *. set (ct := cos (Rtheta az)) in *.
  replace (Rradius d * sp * st * (Rradius d * sp * st)
           + Rradius d * cp * (Rradius d * cp)
           + Rradius d * sp * ct * (Rradius d * sp * ct))
    with (Rradius d * Rradius d * (sp * sp * (st * st + ct * ct) + cp * cp))
    by ring.
  rewrite Ht, Rmult_1_r, Hp. ring.
Qed.

Lemma newAzim_vec (tx ty tz : R) :
  newAzim (vec tx ty tz) = Fin (Razimuth tx tz).
Proof.
  unfold newAzim, Razimuth, vec, Math.PI. cbn [x z Math.atan2 JS.mul].
  rewrite JSFacts.div_Fin by apply PI_neq0.
  cbv zeta. unfold JS.lt, JS.Rltb.
  destruct (Rlt_dec (Math.Ratan2 tx tz * 180 / PI) 0); reflexivity.
Qed.

Lemma newElev_vec (tx ty tz : R) :
  0 < sqrt (tx * tx + ty * ty + tz * tz) ->
  newElev (vec tx ty tz) = Fin (Relevation tx ty tz).
Proof.
  intros Hr. unfold newElev, Relevation, Math.PI.
  rewrite length_vec. unfold vec. cbn [y].
  rewrite JSFacts.div_Fin by lra.
  rewrite JSFacts.clamp_Fin by lra.
  fold (Rclamp (ty / sqrt (tx * tx + ty * ty + tz * tz)) (-1) 1).
  assert (Hc : -1 <= Rclamp (ty / sqrt (tx * tx + ty * ty + tz * tz)) (-1) 1 <= 1).
  { unfold Rclamp. rdec. }
  unfold Math.acos. rdec.
  cbn [JS.mul]. rewrite JSFacts.div_Fin by apply PI_neq0.
  reflexivity.
Qed.

(** *** Rounding and the remainder *)

Lemma Rround_bound (v : R) : IZR (Rround v) - / 2 <= v < IZR (Rround v) + / 2.
Proof. unfold Rround. pose proof (Zfloor_bound (v + / 2)). lra. Qed.

Lemma Rround_eq (v : R) (n : Z) : IZR n - / 2 <= v < IZR n + / 2 -> Rround v = n.
Proof. intros H. unfold Rround. apply Zfloor_eq. lra. Qed.

Lemma round_Fin (v : R) : Math.round (Fin v) = Fin (IZR (Rround v)).
Proof. reflexivity. Qed.

Lemma rem_360 (n : Z) :
  (0 <= n)%Z -> JS.rem (Fin (IZR n)) (Fin 360) = Fin (IZR (n mod 360)).
Proof.
  intros Hn. unfold JS.rem.
  destruct (Req_dec_T 360 0) as [E|_]; [lra|].
  f_equal.
  pose proof (Z.div_mod n 360 ltac:(lia)) as Hdm.
  pose proof (Z.mod_pos_bound n 360 ltac:(lia)) as [Hm0 Hm1].
  apply IZR_le in Hm0. apply IZR_lt in Hm1.
  assert (HR : IZR n = 360 * IZR (n / 360) + IZR (n mod 360)).
  { rewrite Hdm at 1. rewrite plus_IZR, mult_IZR. reflexivity. }
  assert (Hq : JS.Ztrunc (IZR n / 360) = (n / 360)%Z).
  { unfold JS.Ztrunc.
    destruct (Rle_dec 0 (IZR n / 360)) as [_|Hneg].
    - apply Zfloor_eq. lra.
    - exfalso. apply Hneg. apply IZR_le in Hn. lra. }
  rewrite Hq. lra.
Qed.

Lemma deg_bound (v : R) : - PI <= v <= PI -> -180 <= v * 180 / PI <= 180.
Proof.
  intros [H1 H2]. pose proof PI_RGT_0 as Hpi.
  split; apply Rmult_le_reg_r with PI; try lra;
    unfold Rdiv; rewrite Rmult_assoc, Rinv_l, Rmult_1_r by lra; lra.
Qed.

Lemma Razimuth_range (tx tz : R) : 0 <= Razimuth tx tz < 360.
Proof.
  unfold Razimuth. pose proof (deg_bound _ (RealGeom.Ratan2_bound tx tz)).
  cbv zeta. destruct (Rlt_dec (Math.Ratan2 tx tz * 180 / PI) 0); lra.
Qed.

Lemma Rround_azimuth_range (tx tz : R) :
  (0 <= Rround (Razimuth tx tz) <= 360)%Z.
Proof.
  pose proof (Razimuth_range tx tz) as Ha.
  pose proof (Rround_bound (Razimuth tx tz)) as Hb.
  split.
  - apply le_IZR. apply Rnot_lt_le. intros Hlt.
    assert (IZR (Rround (Razimuth tx tz)) <= -1).
    { change (-1) with (IZR (-1)). apply IZR_le.
      apply lt_IZR in Hlt. lia. }
    lra.
  - apply le_IZR. apply Rnot_lt_le. intros Hlt.
    assert (361 <= IZR (Rround (Razimuth tx tz))).
    { change 361 with (IZR 361). apply IZR_le.
      apply lt_IZR in Hlt. lia. }
    lra.
Qed.

(** The orbit branch on a finite target away from the origin. *)
Lemma orbitUpdate_vec (s : CameraSettings) (tx ty tz : R) :
  0 < sqrt (tx * tx + ty * ty + tz * tz) ->
  orbitUpdate s (vec tx ty tz)
  = Some {| azimuth := Fin (IZR (Rround (Razimuth tx tz) mod 360));
            elevation :=
              Fin (Rclamp (IZR (Rround (Relevation tx ty tz))) (-30) 60);
            distance := distance s;
            shotType := shotType s |}.
Proof.
  intros Hr. unfold orbitUpdate.
  rewrite length_vec.
  assert (Hgt : JS.gt (Fin (sqrt (tx * tx + ty * ty + tz * tz))) (Fin 0) = true).
  { unfold JS.gt. apply JSFacts.lt_Fin. exact Hr. }
  rewrite Hgt.
  rewrite newAzim_vec, (newElev_vec _ _ _ Hr), !round_Fin.
  rewrite rem_360 by apply Rround_azimuth_range.
  rewrite JSFacts.clamp_Fin by lra.
  reflexivity.
Qed.

Lemma orbitUpdate_zero (s : CameraSettings) : orbitUpdate s zero3 = None.
Proof.
  unfold orbitUpdate, zero3, length. cbn [x y z JS.mul JS.add].
  rewrite JSFacts.sqrt_Fin by lra.
  replace (0 * 0 + 0 * 0 + 0 * 0) with 0 by ring. rewrite sqrt_0.
  unfold JS.gt, JS.lt, JS.Rltb. rdec. reflexivity.
Qed.

(** *** The sphere intersection *)

Lemma sub_vec (a b c d e f : R) :
  sub (vec a b c) (vec d e f) = vec (a - d) (b - e) (c - f).
Proof. reflexivity. Qed.

Lemma add_vec (a b c d e f : R) :
  add (vec a b c) (vec d e f) = vec (a + d) (b + e) (c + f).
Proof. reflexivity. Qed.

Lemma dot_vec (a b c d e f : R) :
  dot (vec a b c) (vec d e f) = Fin (a * d + b * e + c * f).
Proof. reflexivity. Qed.

Lemma multiplyScalar_vec (a b c t : R) :
  multiplyScalar (vec a b c) (Fin t) = vec (a * t) (b * t) (c * t).
Proof. reflexivity. Qed.

Lemma negate_vec (a b c : R) : negate (vec a b c) = vec (- a) (- b) (- c).
Proof. reflexivity. Qed.

Lemma at_mkRay (ox oy oz dx dy dz t : R) :
  at_ (mkRay ox oy oz dx dy dz) (Fin t) = vec3 (Rat ox oy oz dx dy dz t).
Proof. reflexivity. Qed.

Lemma intersectSphere_mkRay (ox oy oz dx dy dz r : R) :
  intersectSphere (mkRay ox oy oz dx dy dz) (originSphere r)
  = option_map vec3 (RintersectSphere ox oy oz dx dy dz r).
Proof.
  unfold intersectSphere, RintersectSphere, originSphere.
  cbn [center sphere_radius].
  change (origin (mkRay ox oy oz dx dy dz)) with (vec ox oy oz).
  change (direction (mkRay ox oy oz dx dy dz)) with (vec dx dy dz).
  change zero3 with (vec 0 0 0).
  rewrite sub_vec, !dot_vec. fold (Rtca ox oy oz dx dy dz).
  rewrite !JSFacts.mul_Fin, JSFacts.sub_Fin. fold (Rd2 ox oy oz dx dy dz).
  cbv zeta. set (T := Rtca ox oy oz dx dy dz). set (D := Rd2 ox oy oz dx dy dz).
  unfold JS.gt, JS.lt, JS.Rltb.
  destruct (Rlt_dec (r * r) D) as [Hm|Hm]; [reflexivity|].
  rewrite JSFacts.sub_Fin, JSFacts.sqrt_Fin by lra.
  rewrite JSFacts.add_Fin, JSFacts.sub_Fin.
  destruct (Rlt_dec (T + sqrt (r * r - D)) 0); [reflexivity|].
  destruct (Rlt_dec (T - sqrt (r * r - D)) 0);
    rewrite at_mkRay; reflexivity.
Qed.

Section UnitRay.

Variables ox oy oz dx dy dz : R.
Hypothesis unit : dx * dx + dy * dy + dz * dz = 1.

Lemma norm2_Rat (u : R) :
  norm2 (Rat ox oy oz dx dy dz u)
  = (u - Rtca ox oy oz dx dy dz) * (u - Rtca ox oy oz dx dy dz)
    + Rd2 ox oy oz dx dy dz.
Proof.
  unfold norm2, Rat, Rd2, Rtca.
  replace ((ox + dx * u) * (ox + dx * u) + (oy + dy * u) * (oy + dy * u)
           + (oz + dz * u) * (oz + dz * u))
    with (ox * ox + oy * oy + oz * oz
          + 2 * u * (ox * dx + oy * dy + oz * dz)
          + u * u * (dx * dx + dy * dy + dz * dz)) by ring.
  rewrite unit. ring.
Qed.

Lemma RintersectSphere_hit (r : R) (p : R * R * R) :
  RintersectSphere ox oy oz dx dy dz r = Some p ->
  exists u, 0 <= u /\ p = Rat ox oy oz dx dy dz u /\ norm2 p = r * r.
Proof.
  unfold RintersectSphere. cbv zeta.
  set (T := Rtca ox oy oz dx dy dz). set (D := Rd2 ox oy oz dx dy dz).
  destruct (Rlt_dec (r * r) D) as [Hm|Hm]; [discriminate|].
  assert (Hs : sqrt (r * r - D) * sqrt (r * r - D) = r * r - D)
    by (apply sqrt_sqrt; lra).
  pose proof (sqrt_pos (r * r - D)) as Hp.
  destruct (Rlt_dec (T + sqrt (r * r - D)) 0) as [H1|H1]; [discriminate|].
  destruct (Rlt_dec (T - sqrt (r * r - D)) 0) as [H0|H0];
    intros E; inversion E; subst p; clear E.
  - exists (T + sqrt (r * r - D)). split; [lra|]. split; [reflexivity|].
    rewrite norm2_Rat. fold T D.
    replace (T + sqrt (r * r - D) - T) with (sqrt (r * r - D)) by ring.
    lra.
  - exists (T - sqrt (r * r - D)). split; [lra|]. split; [reflexivity|].
    rewrite norm2_Rat. fold T D.
    replace ((T - sqrt (r * r - D) - T) * (T - sqrt (r * r - D) - T))
      with (sqrt (r * r - D) * sqrt (r * r - D)) by ring.
    lra.
Qed.

Lemma RintersectSphere_miss (r u : R) :
  RintersectSphere ox oy oz dx dy dz r = None ->
  0 <= u -> norm2 (Rat ox oy oz dx dy dz u) <> r * r.
Proof.
  unfold RintersectSphere. cbv zeta. rewrite norm2_Rat.
  set (T := Rtca ox oy oz dx dy dz). set (D := Rd2 ox oy oz dx dy dz).
  intros E Hu.
  destruct (Rlt_dec (r * r) D) as [Hm|Hm].
  - pose proof (Rle_0_sqr (u - T)) as Hsq. unfold Rsqr in Hsq. lra.
  - assert (Hs : sqrt (r * r - D) * sqrt (r * r - D) = r * r - D)
      by (apply sqrt_sqrt; lra).
    pose proof (sqrt_pos (r * r - D)) as Hp.
    destruct (Rlt_dec (T + sqrt (r * r - D)) 0) as [H1|H1].
    + intros Heq.
      assert (Hf : (u - T - sqrt (r * r - D)) * (u - T + sqrt (r * r - D)) = 0).
      { replace ((u - T - sqrt (r * r - D)) * (u - T + sqrt (r * r - D)))
          with ((u - T) * (u - T) - sqrt (r * r - D) * sqrt (r * r - D))
          by ring.
        lra. }
      apply Rmult_integral in Hf. destruct Hf; lra.
    + destruct (Rlt_dec (T - sqrt (r * r - D)) 0); discriminate.
Qed.

End UnitRay.

(** *** Position and inverse recovery *)

Lemma Rtheta_bounds (az : R) :
  0 <= az < 360 -> 0 <= Rtheta az < 2 * PI.
Proof.
  intros H. pose proof PI_RGT_0. unfold Rtheta. split; nra.
Qed.

Lemma Rphi_bounds (el : R) :
  -90 < el < 90 -> 0 < Rphi el < PI.
Proof.
  intros H. pose proof PI_RGT_0. unfold Rphi. split; nra.
Qed.

Lemma Rtheta_deg (az : R) : Rtheta az * 180 / PI = az.
Proof. unfold Rtheta. field. apply PI_neq0. Qed.

Lemma Rphi_deg (el : R) : 90 - Rphi el * 180 / PI = el.
Proof. unfold Rphi. field. apply PI_neq0. Qed.

Lemma Razimuth_polar (k az : R) :
  0 < k -> 0 <= az < 360 ->
  Razimuth (k * sin (Rtheta az)) (k * cos (Rtheta az)) = az.
Proof.
  intros Hk Haz. pose proof PI_RGT_0 as Hpi.
  pose proof (Rtheta_bounds az Haz) as Ht.
  unfold Razimuth. cbv zeta.
  destruct (Rle_dec az 180) as [Hle|Hgt].
  - assert (Rtheta az <= PI) by (unfold Rtheta; nra).
    rewrite RealGeom.Ratan2_polar by lra.
    rewrite Rtheta_deg. rdec.
  - assert (PI < Rtheta az) by (unfold Rtheta; nra).
    assert (Es : sin (Rtheta az) = sin (Rtheta az - 2 * PI)).
    { rewrite sin_minus, sin_2PI, cos_2PI. ring. }
    assert (Ec : cos (Rtheta az) = cos (Rtheta az - 2 * PI)).
    { rewrite cos_minus, sin_2PI, cos_2PI. ring. }
    rewrite Es, Ec.
    rewrite RealGeom.Ratan2_polar by lra.
    replace ((Rtheta az - 2 * PI) * 180 / PI) with (az - 360)
      by (unfold Rtheta; field; apply PI_neq0).
    rdec.
Qed.

Lemma Razimuth_position (az el d : R) :
  0 <= az < 360 -> -90 < el < 90 -> 0 < d ->
  let '(px, _, pz) := Rposition az el d in Razimuth px pz = az.
Proof.
  intros Haz Hel Hd. unfold Rposition.
  apply Razimuth_polar; [|exact Haz].
  pose proof (Rphi_bounds el Hel) as [H0 H1].
  pose proof (sin_gt_0 _ H0 H1).
  unfold Rradius. nra.
Qed.

Lemma sqrt_norm2_position (az el d : R) :
  0 < d -> sqrt (norm2 (Rposition az el d)) = Rradius d.
Proof.
  intros Hd. rewrite norm2_position. apply sqrt_square.
  unfold Rradius. lra.
Qed.

Lemma Relevation_position (az el d : R) :
  -90 <= el <= 90 -> 0 < d ->
  let '(px, py, pz) := Rposition az el d in Relevation px py pz = el.
Proof.
  intros Hel Hd.
  pose proof (sqrt_norm2_position az el d Hd) as Hn.
  unfold Rposition in *. unfold norm2 in Hn.
  unfold Relevation. rewrite Hn.
  assert (Hr : 0 < Rradius d) by (unfold Rradius; lra).
  replace (Rradius d * cos (Rphi el) / Rradius d) with (cos (Rphi el))
    by (field; lra).
  pose proof (COS_bound (Rphi el)) as Hc.
  unfold Rclamp. rdec.
  rewrite acos_cos.
  - apply Rphi_deg.
  - pose proof PI_RGT_0. unfold Rphi. split; nra.
Qed.

Lemma Rround_small (v : R) (lo hi : Z) :
  IZR lo <= v <= IZR hi -> (lo <= Rround v <= hi)%Z.
Proof.
  intros Hv. pose proof (Rround_bound v) as Hb.
  split.
  - destruct (Z_lt_le_dec (Rround v) lo) as [Hlt|Hge]; [|exact Hge].
    exfalso. assert (Rround v <= lo - 1)%Z as Hle by lia.
    apply IZR_le in Hle. rewrite minus_IZR in Hle. lra.
  - destruct (Z_lt_le_dec hi (Rround v)) as [Hlt|Hge]; [|exact Hge].
    exfalso. assert (hi + 1 <= Rround v)%Z as Hle by lia.
    apply IZR_le in Hle. rewrite plus_IZR in Hle. lra.
Qed.

Lemma Rclamp_id (v lo hi : R) : lo <= v <= hi -> Rclamp v lo hi = v.
Proof. intros H. unfold Rclamp. rdec. Qed.


Lemma Rround_mod_close (az : R) :
  0 <= az < 360 ->
  Rabs (IZR (Rround az mod 360) - az) <= / 2
  \/ Rabs (IZR (Rround az mod 360) + 360 - az) <= / 2.
Proof.
  intros Haz. pose proof (Rround_bound az) as Hb.
  pose proof (Rround_small az 0 360 ltac:(simpl; lra)) as Hn.
  destruct (Z.eq_dec (Rround az) 360) as [E|E].
  - right. rewrite E in *. change (360 mod 360)%Z with 0%Z.
    apply Rabs_le. simpl in Hb. lra.
  - left. rewrite Z.mod_small by lia.
    apply Rabs_le. lra.
Qed.

(** C5.  For a pose within the ranges, the position is the one the claim
    writes, and the inverse recovery of the orbit branch returns the
    azimuth and the elevation exactly in real arithmetic; the values the
    branch stores after rounding are within half a degree of the originals,
    the azimuth modulo 360. *)
Theorem position_inverse_roundtrip (az el d : R) (t : ShotType) :
  0 <= az < 360 -> -30 <= el <= 60 -> 0.6 <= d <= 1.4 ->
  let s := mkPose az el d t in
  cameraPos s = vec3 (Rposition az el d)
  /\ newAzim (cameraPos s) = Fin az
  /\ newElev (cameraPos s) = Fin el
  /\ orbitUpdate s (cameraPos s)
     = Some {| azimuth := Fin (IZR (Rround az mod 360));
               elevation := Fin (IZR (Rround el));
               distance := Fin d; shotType := t |}
  /\ Rabs (IZR (Rround el) - el) <= / 2
  /\ (Rabs (IZR (Rround az mod 360) - az) <= / 2
      \/ Rabs (IZR (Rround az mod 360) + 360 - az) <= / 2).
Proof.
  intros Haz Hel Hd s.
  assert (Hd0 : 0 < d) by lra.
  pose proof (Razimuth_position az el d Haz ltac:(lra) Hd0) as HA.
  pose proof (Relevation_position az el d ltac:(lra) Hd0) as HE.
  pose proof (sqrt_norm2_position az el d Hd0) as HN.
  unfold s. rewrite cameraPos_mkPose.
  destruct (Rposition az el d) as [[px py] pz] eqn:EP.
  unfold norm2 in HN. cbn [vec3].
  assert (Hpos : 0 < sqrt (px * px + py * py + pz * pz)).
  { rewrite HN. unfold Rradius. lra. }
  split; [reflexivity|].
  split; [rewrite newAzim_vec, HA; reflexivity|].
  split; [rewrite (newElev_vec _ _ _ Hpos), HE; reflexivity|].
  split.
  - rewrite (orbitUpdate_vec _ _ _ _ Hpos), HA, HE.
    rewrite Rclamp_id; [reflexivity|].
    pose proof (Rround_small el (-30) 60 ltac:(simpl; lra)) as [H1 H2].
    apply IZR_le in H1, H2. lra.
  - split.
    + pose proof (Rround_bound el). apply Rabs_le. lra.
    + apply Rround_mod_close. exact Haz.
Qed.

Lemma position_inverse_roundtrip_witness :
  0 <= 90 < 360 /\ -30 <= 0 <= 60 /\ 0.6 <= 1 <= 1.4
  /\ newAzim (cameraPos (mkPose 90 0 1 medium)) = Fin 90
  /\ newElev (cameraPos (mkPose 90 0 1 medium)) = Fin 0.
Proof.
  assert (Ha : 0 <= 90 < 360) by lra.
  assert (He : -30 <= 0 <= 60) by lra.
  assert (Hd : 0.6 <= 1 <= 1.4) by lra.
  destruct (position_inverse_roundtrip 90 0 1 medium Ha He Hd)
    as (_ & HA & HE & _).
  repeat split; try lra; assumption.
Defined.

(** *** The orbit branch *)

Lemma RintersectSphere_radial (a b c r : R) :
  0 < r -> a * a + b * b + c * c = r * r ->
  RintersectSphere (2 * a) (2 * b) (2 * c) (- a / r) (- b / r) (- c / r) r
  = Some (a, b, c).
Proof.
  intros Hr Hn.
  assert (HT : Rtca (2 * a) (2 * b) (2 * c) (- a / r) (- b / r) (- c / r)
               = 2 * r).
  { unfold Rtca.
    replace ((0 - 2 * a) * (- a / r) + (0 - 2 * b) * (- b / r)
             + (0 - 2 * c) * (- c / r))
      with (2 * (a * a + b * b + c * c) / r) by (field; lra).
    rewrite Hn. field. lra. }
  assert (HD : Rd2 (2 * a) (2 * b) (2 * c) (- a / r) (- b / r) (- c / r) = 0).
  { unfold Rd2. rewrite HT.
    replace ((0 - 2 * a) * (0 - 2 * a) + (0 - 2 * b) * (0 - 2 * b)
             + (0 - 2 * c) * (0 - 2 * c))
      with (4 * (a * a + b * b + c * c)) by ring.
    rewrite Hn. ring. }
  unfold RintersectSphere. cbv zeta. rewrite HT, HD.
  replace (r * r - 0) with (r * r) by ring.
  rewrite sqrt_square by lra.
  destruct (Rlt_dec (r * r) 0) as [Hneg|_]; [nra|].
  rdec.
  unfold Rat. repeat f_equal; field; lra.
Qed.

Lemma handlePointerMove_orbit_mkRay (az el d : R) (t : ShotType)
    (ox oy oz dx dy dz : R) :
  handlePointerMove orbit (mkPose az el d t) (mkRay ox oy oz dx dy dz)
  = orbitUpdate (mkPose az el d t)
      (target_after
         (option_map vec3 (RintersectSphere ox oy oz dx dy dz (Rradius d)))
         zero3).
Proof.
  unfold handlePointerMove. cbv zeta.
  change {| center := zero3; sphere_radius := radius (mkPose az el d t) |}
    with (originSphere (Rradius d)).
  rewrite intersectSphere_mkRay. reflexivity.
Qed.

(** C4, with the azimuth as the code computes it.  For a finite pose of
    positive distance and a ray of unit direction: when the ray has no point
    on the sphere the handler does not call [onSettingsChange] and the pose
    stays; otherwise the hit point of [intersectSphere] lies on the ray and
    on the sphere, the elevation is the clamped rounding of the recovered
    elevation, and the azimuth is the rounding of the wrapped [atan2]
    angle reduced modulo 360. *)
Theorem orbit_move (parseFloat : string -> number) (az el d : R)
    (t : ShotType) (ox oy oz dx dy dz : R) :
  0 < d -> dx * dx + dy * dy + dz * dz = 1 ->
  let s := mkPose az el d t in
  let ray := mkRay ox oy oz dx dy dz in
  match intersectSphere ray (originSphere (Rradius d)) with
  | None =>
      (forall u, 0 <= u ->
         norm2 (Rat ox oy oz dx dy dz u) <> Rradius d * Rradius d)
      /\ handlePointerMove orbit s ray = None
      /\ poseStep parseFloat s (PointerMove orbit ray) = s
  | Some target =>
      exists tx ty tz,
        target = vec tx ty tz
        /\ (exists u, 0 <= u /\ (tx, ty, tz) = Rat ox oy oz dx dy dz u)
        /\ tx * tx + ty * ty + tz * tz = Rradius d * Rradius d
        /\ handlePointerMove orbit s ray
           = Some {| azimuth := Fin (IZR (Rround (Razimuth tx tz) mod 360));
                     elevation :=
                       Fin (Rclamp (IZR (Rround (Relevation tx ty tz)))
                              (-30) 60);
                     distance := Fin d;
                     shotType := t |}
  end.
Proof.
  intros Hd Hu s ray. unfold s, ray.
  assert (Hstep : poseStep parseFloat (mkPose az el d t)
                    (PointerMove orbit (mkRay ox oy oz dx dy dz))
                  = match handlePointerMove orbit (mkPose az el d t)
                            (mkRay ox oy oz dx dy dz) with
                    | Some p' => p'
                    | None => mkPose az el d t
                    end) by reflexivity.
  rewrite Hstep, handlePointerMove_orbit_mkRay, intersectSphere_mkRay.
  destruct (RintersectSphere ox oy oz dx dy dz (Rradius d))
    as [[[tx ty] tz]|] eqn:E; cbn [option_map target_after vec3].
  - destruct (RintersectSphere_hit _ _ _ _ _ _ Hu _ _ E) as (u & Hu0 & Hp & Hn).
    exists tx, ty, tz. split; [reflexivity|].
    split; [exists u; split; assumption|].
    unfold norm2 in Hn. split; [exact Hn|].
    apply orbitUpdate_vec. rewrite Hn.
    rewrite sqrt_square; unfold Rradius; lra.
  - split.
    + intros u Hu0. apply (RintersectSphere_miss _ _ _ _ _ _ Hu _ _ E Hu0).
    + rewrite orbitUpdate_zero. split; reflexivity.
Qed.

Lemma orbit_move_witness :
  0 < 1 /\ 0 * 0 + 0 * 0 + -1 * -1 = 1
  /\ handlePointerMove orbit (mkPose 45 35 1 medium) (mkRay 3 0 10 0 0 (-1))
     = None.
Proof.
  assert (Hd : 0 < 1) by lra.
  assert (Hu : 0 * 0 + 0 * 0 + -1 * -1 = 1) by lra.
  split; [exact Hd|]. split; [exact Hu|].
  pose proof (orbit_move Props.parseTwo 45 35 1 medium 3 0 10 0 0 (-1) Hd Hu)
    as H.
  cbv zeta in H. rewrite intersectSphere_mkRay in H.
  assert (E : RintersectSphere 3 0 10 0 0 (-1) (Rradius 1) = None).
  { unfold RintersectSphere, Rd2, Rtca, Rradius. cbv zeta.
    destruct (Rlt_dec _ _) as [_|Hn]; [reflexivity|]. exfalso; lra. }
  rewrite E in H. cbn [option_map] in H.
  exact (proj1 (proj2 H)).
Defined.

(** A pointer ray through the point of the sphere at azimuth [az] and
    elevation [el] stores these two angles, rounded. *)
Lemma orbit_through_position (az0 el0 az el d : R) (t : ShotType) :
  0 <= az < 360 -> -30 <= el <= 60 -> 0 < d ->
  handlePointerMove orbit (mkPose az0 el0 d t)
    (radialRay (Rposition az el d) (Rradius d))
  = Some (mkPose (IZR (Rround az mod 360)) (IZR (Rround el)) d t).
Proof.
  intros Haz Hel Hd.
  pose proof (Razimuth_position az el d Haz ltac:(lra) Hd) as HA.
  pose proof (Relevation_position az el d ltac:(lra) Hd) as HE.
  pose proof (norm2_position az el d) as HN.
  assert (Hr : 0 < Rradius d) by (unfold Rradius; lra).
  destruct (Rposition az el d) as [[a b] c].
  unfold norm2 in HN. unfold radialRay.
  rewrite handlePointerMove_orbit_mkRay.
  rewrite (RintersectSphere_radial a b c (Rradius d) Hr HN).
  cbn [option_map target_after vec3].
  rewrite orbitUpdate_vec by (rewrite HN, sqrt_square; lra).
  rewrite HA, HE. rewrite Rclamp_id; [reflexivity|].
  pose proof (Rround_small el (-30) 60 ltac:(simpl; lra)) as [H1 H2].
  apply IZR_le in H1, H2. lra.
Qed.

Example orbit_through_90_0 :
  handlePointerMove orbit dragPose (radialRay (Rposition 90 0 1) (Rradius 1))
  = Some (mkPose 90 0 1 medium).
Proof.
  unfold dragPose.
  rewrite orbit_through_position by lra.
  replace (Rround 90) with 90%Z by (symmetry; apply Rround_eq; simpl; lra).
  replace (Rround 0) with 0%Z by (symmetry; apply Rround_eq; simpl; lra).
  reflexivity.
Qed.

(** C4 as claimed fails on the last half degree before 360: the handler
    stores 0 where wrapping and rounding alone give 360. *)
Lemma orbit_azimuth_wraps_to_zero :
  intersectSphere wrapRay (originSphere (Rradius 1)) = Some (vec3 wrapTarget)
  /\ azimuth (claimedOrbitPose dragPose (vec3 wrapTarget)) = Fin 360
  /\ option_map azimuth (handlePointerMove orbit dragPose wrapRay)
     = Some (Fin 0).
Proof.
  assert (Haz : 0 <= 359.75 < 360) by lra.
  assert (Hel : -90 < 0 < 90) by lra.
  assert (Hd : 0 < 1) by lra.
  pose proof (Razimuth_position 359.75 0 1 Haz Hel Hd) as HA.
  pose proof (norm2_position 359.75 0 1) as HN.
  assert (Hr : 0 < Rradius 1) by (unfold Rradius; lra).
  assert (HR : Rround 359.75 = 360%Z) by (apply Rround_eq; simpl; lra).
  unfold wrapRay, wrapTarget, dragPose.
  destruct (Rposition 359.75 0 1) as [[a b] c].
  unfold norm2 in HN. unfold radialRay.
  assert (HI : RintersectSphere (2 * a) (2 * b) (2 * c)
                 (- a / Rradius 1) (- b / Rradius 1) (- c / Rradius 1)
                 (Rradius 1) = Some (a, b, c))
    by (apply RintersectSphere_radial; assumption).
  split; [rewrite intersectSphere_mkRay, HI; reflexivity|].
  split.
  - unfold claimedOrbitPose. cbn [azimuth vec3].
    rewrite newAzim_vec, HA, round_Fin, HR. reflexivity.
  - rewrite handlePointerMove_orbit_mkRay, HI.
    cbn [option_map target_after vec3].
    rewrite orbitUpdate_vec.
    + cbn [option_map azimuth]. rewrite HA, HR. reflexivity.
    + rewrite HN. rewrite sqrt_square; lra.
Qed.

(** *** The distance branch *)

Lemma normalize_vec (a b c : R) :
  normalize (vec a b c) = vec3 (Rnormalize (a, b, c)).
Proof.
  unfold normalize, divideScalar. rewrite length_vec.
  unfold Rnormalize, JS.or_else. cbv zeta.
  destruct (Req_dec_T (sqrt (a * a + b * b + c * c)) 0) as [E|E].
  - rewrite JSFacts.div_Fin by lra. reflexivity.
  - rewrite JSFacts.div_Fin by exact E. reflexivity.
Qed.

Lemma zoomDenominator_mkRay (az el d : R) (t : ShotType)
    (ox oy oz dx dy dz : R) :
  zoomDenominator (mkPose az el d t) (mkRay ox oy oz dx dy dz)
  = Fin (RzoomDen (Rposition az el d) (dx, dy, dz)).
Proof.
  unfold zoomDenominator. rewrite cameraPos_mkPose.
  destruct (Rposition az el d) as [[p1 p2] p3] eqn:EP.
  cbn [vec3]. rewrite normalize_vec.
  unfold RzoomDen, RzoomDot.
  destruct (Rnormalize (p1, p2, p3)) as [[c1 c2] c3].
  reflexivity.
Qed.

(** The distance branch up to its division. *)
Lemma newRadius_mkRay (az el d : R) (t : ShotType) (ox oy oz dx dy dz : R) :
  let p := Rposition az el d in
  newRadius (mkPose az el d t) (mkRay ox oy oz dx dy dz)
  = MathUtils.clamp
      (JS.div
         (length
            (add (vec3 p)
               (multiplyScalar (vec3 (Rnormalize p))
                  (JS.div (Fin (RzoomNum p (ox, oy, oz) (dx, dy, dz)))
                          (Fin (RzoomDen p (dx, dy, dz)))))))
         VISUAL_SCALE)
      (Fin 0.6) (Fin 1.4).
Proof.
  intros p. unfold newRadius. rewrite zoomDenominator_mkRay.
  rewrite cameraPos_mkPose. fold p.
  unfold RzoomNum, RzoomDot.
  destruct p as [[p1 p2] p3].
  cbn [vec3]. rewrite normalize_vec.
  destruct (Rnormalize (p1, p2, p3)) as [[c1 c2] c3].
  reflexivity.
Qed.

(** With a denominator other than zero the stored distance is finite and
    clamped. *)
Lemma newRadius_regular (az el d : R) (t : ShotType) (ox oy oz dx dy dz : R) :
  RzoomDen (Rposition az el d) (dx, dy, dz) <> 0 ->
  newRadius (mkPose az el d t) (mkRay ox oy oz dx dy dz)
  = Fin (RnewRadius (Rposition az el d) (ox, oy, oz) (dx, dy, dz)).
Proof.
  intros Hden. rewrite newRadius_mkRay. cbv zeta.
  rewrite JSFacts.div_Fin by exact Hden.
  unfold RnewRadius.
  destruct (Rposition az el d) as [[p1 p2] p3].
  destruct (Rnormalize (p1, p2, p3)) as [[c1 c2] c3].
  cbn [vec3]. rewrite multiplyScalar_vec, add_vec, length_vec.
  unfold VISUAL_SCALE. rewrite JSFacts.div_Fin by lra.
  rewrite JSFacts.clamp_Fin by lra. reflexivity.
Qed.

(** With both the numerator and the denominator at zero the division is
    [0 / 0] and the NaN goes through [clamp] into the stored distance. *)
Lemma newRadius_degenerate (az el d : R) (t : ShotType)
    (ox oy oz dx dy dz : R) :
  RzoomDen (Rposition az el d) (dx, dy, dz) = 0 ->
  RzoomNum (Rposition az el d) (ox, oy, oz) (dx, dy, dz) = 0 ->
  newRadius (mkPose az el d t) (mkRay ox oy oz dx dy dz) = NaN.
Proof.
  intros Hden Hnum. rewrite newRadius_mkRay. cbv zeta.
  rewrite Hden, Hnum.
  assert (E : JS.div (Fin 0) (Fin 0) = NaN).
  { unfold JS.div, JS.inf_times. rdec. reflexivity. }
  rewrite E.
  destruct (Rposition az el d) as [[p1 p2] p3].
  destruct (Rnormalize (p1, p2, p3)) as [[c1 c2] c3].
  reflexivity.
Qed.

Lemma Rnormalize_unit (a b c : R) :
  0 < a * a + b * b + c * c ->
  let '(c1, c2, c3) := Rnormalize (a, b, c) in
  c1 * c1 + c2 * c2 + c3 * c3 = 1.
Proof.
  intros Hn. unfold Rnormalize. cbv zeta.
  pose proof (sqrt_lt_R0 _ Hn) as Hl.
  pose proof (sqrt_sqrt (a * a + b * b + c * c) ltac:(lra)) as Hs.
  set (l := sqrt (a * a + b * b + c * c)) in *.
  destruct (Req_dec_T l 0) as [E|E]; [lra|].
  replace (a * (1 / l) * (a * (1 / l)) + b * (1 / l) * (b * (1 / l))
           + c * (1 / l) * (c * (1 / l)))
    with ((a * a + b * b + c * c) / (l * l)) by (field; exact E).
  rewrite Hs. field. lra.
Qed.

(** A pointer ray along the camera axis, in either direction and from any
    origin, stores NaN as the distance: the division of the distance branch
    is [0 / 0] and nothing guards it. *)
Lemma zoom_along_camera_axis (az el d : R) (t : ShotType)
    (ox oy oz sigma : R) :
  0 < d -> sigma * sigma = 1 ->
  let '(c1, c2, c3) := Rnormalize (Rposition az el d) in
  handlePointerMove distance_mode (mkPose az el d t)
    (mkRay ox oy oz (sigma * c1) (sigma * c2) (sigma * c3))
  = Some (with_distance NaN (mkPose az el d t)).
Proof.
  intros Hd Hs.
  pose proof (norm2_position az el d) as Hn.
  destruct (Rposition az el d) as [[p1 p2] p3] eqn:EP.
  unfold norm2 in Hn.
  assert (Hpos : 0 < p1 * p1 + p2 * p2 + p3 * p3).
  { rewrite Hn. unfold Rradius. nra. }
  pose proof (Rnormalize_unit p1 p2 p3 Hpos) as Hu.
  destruct (Rnormalize (p1, p2, p3)) as [[c1 c2] c3] eqn:EC.
  unfold handlePointerMove. f_equal. f_equal.
  assert (Hdot : RzoomDot (p1, p2, p3) (sigma * c1, sigma * c2, sigma * c3)
                 = sigma).
  { unfold RzoomDot, Rdot. rewrite EC.
    replace (sigma * c1 * c1 + sigma * c2 * c2 + sigma * c3 * c3)
      with (sigma * (c1 * c1 + c2 * c2 + c3 * c3)) by ring.
    rewrite Hu. ring. }
  apply newRadius_degenerate; rewrite EP.
  - unfold RzoomDen. rewrite Hdot. lra.
  - unfold RzoomNum. rewrite EC, Hdot.
    replace (- ox * (c1 - sigma * c1 * sigma) + - oy * (c2 - sigma * c2 * sigma)
             + - oz * (c3 - sigma * c3 * sigma))
      with ((1 - sigma * sigma) * (- ox * c1 + - oy * c2 + - oz * c3)) by ring.
    rewrite Hs. ring.
Qed.

Lemma Rposition_axis : Rposition 0 0 1 = (0, 0, 2.5).
Proof.
  unfold Rposition, Rradius.
  replace (Rphi 0) with (PI / 2) by (unfold Rphi; field).
  replace (Rtheta 0) with 0 by (unfold Rtheta; field).
  rewrite sin_PI2, cos_PI2, sin_0, cos_0.
  repeat f_equal; ring.
Qed.

Lemma Rnormalize_axis : Rnormalize (0, 0, 2.5) = (0, 0, 1).
Proof.
  unfold Rnormalize. cbv zeta.
  replace (0 * 0 + 0 * 0 + 2.5 * 2.5) with (2.5 * 2.5) by ring.
  rewrite sqrt_square by lra.
  destruct (Req_dec_T 2.5 0) as [E|_]; [lra|].
  repeat f_equal; lra.
Qed.

(** C2 at one input: the camera on the +Z axis at distance 1 and the pointer
    ray coming down that axis.  The denominator is zero, the handler calls
    [onSettingsChange] with the distance NaN, and the stored distance is
    outside [0.6, 1.4]. *)
Lemma zoom_axis_ray_stores_NaN :
  handlePointerMove distance_mode axisPose axisRay
  = Some (with_distance NaN axisPose)
  /\ zoomDenominator axisPose axisRay = Fin 0
  /\ ~ JS.within 0.6 1.4
        (distance (poseStep Props.parseTwo axisPose
                     (PointerMove distance_mode axisRay))).
Proof.
  assert (Hden : RzoomDen (Rposition 0 0 1) (0, 0, -1) = 0).
  { rewrite Rposition_axis. unfold RzoomDen, RzoomDot.
    rewrite Rnormalize_axis. unfold Rdot. ring. }
  assert (Hnum : RzoomNum (Rposition 0 0 1) (0, 0, 10) (0, 0, -1) = 0).
  { rewrite Rposition_axis. unfold RzoomNum, RzoomDot.
    rewrite Rnormalize_axis. unfold Rdot. ring. }
  assert (HN : newRadius axisPose axisRay = NaN)
    by (apply newRadius_degenerate; assumption).
  split; [|split].
  - unfold handlePointerMove. rewrite HN. reflexivity.
  - unfold axisPose, axisRay. rewrite zoomDenominator_mkRay, Hden.
    reflexivity.
  - cbn [poseStep]. unfold handlePointerMove. rewrite HN.
    cbn [with_distance distance].
    intros (v & Hv & _). discriminate Hv.
Qed.

(** *** Ranges of what the handler stores *)




End ViewerFacts.

(** ** The pose invariant *)

Module PoseFacts.

Import THREE CameraViewer App Props.











End PoseFacts.

(** ** The generation service *)

Module ServiceFacts.

Import GeminiService GeminiRequest.

Lemma firstImageUrl_none (parts : list Part) :
  Forall (fun p => inlineData p = None) parts -> firstImageUrl parts = ""%string.
Proof.
  induction 1 as [|p ps Hp _ IH]; simpl; [reflexivity|].
  rewrite Hp. exact IH.
Qed.

Lemma firstImageUrl_first (pre post : list Part) (p : Part) (d : InlineData) :
  Forall (fun q => inlineData q = None) pre -> inlineData p = Some d ->
  firstImageUrl (pre ++ p :: post)
  = ("data:image/png;base64," ++ data d)%string.
Proof.
  induction 1 as [|q qs Hq _ IH]; intros Hp; simpl.
  - rewrite Hp. reflexivity.
  - rewrite Hq. apply IH. exact Hp.
Qed.

(** What [generateAngledImage] makes of the three kinds of outcome: a
    rejection is rethrown with its message; a response without any inline
    image (no parts, or parts without [inlineData]) throws the fixed
    message; otherwise the result is the data URL of the first part that
    holds inline data, whatever follows it.  Each call sends one request. *)
Theorem generateAngledImage_outcomes (api : Api) (log : list Request)
    (imgs : list string) (prompt ratio : string) :
  let req := {| req_images := imgs; req_prompt := prompt;
                req_aspectRatio := ratio |} in
  (forall m, api (List.length log) req = Rejected m ->
     generateAngledImage api log imgs prompt ratio
     = (Throw m, (log ++ [req])%list))
  /\ (api (List.length log) req = Response None ->
      generateAngledImage api log imgs prompt ratio
      = (Throw noImageMessage, (log ++ [req])%list))
  /\ (forall parts, api (List.length log) req = Response (Some parts) ->
      Forall (fun p => inlineData p = None) parts ->
      generateAngledImage api log imgs prompt ratio
      = (Throw noImageMessage, (log ++ [req])%list))
  /\ (forall pre p post d,
      api (List.length log) req = Response (Some (pre ++ p :: post)) ->
      Forall (fun q => inlineData q = None) pre -> inlineData p = Some d ->
      generateAngledImage api log imgs prompt ratio
      = (Ok ("data:image/png;base64," ++ data d)%string, (log ++ [req])%list)).
Proof.
  intros req. unfold generateAngledImage. fold req.
  repeat split.
  - intros m ->. reflexivity.
  - intros ->. reflexivity.
  - intros parts -> Hn. rewrite (firstImageUrl_none _ Hn). reflexivity.
  - intros pre p post d -> Hn Hp.
    rewrite (firstImageUrl_first _ _ _ _ Hn Hp). reflexivity.
Qed.

Lemma splitComma_commaFree (s : string) :
  commaFree s = true -> splitComma s = [s].
Proof.
  induction s as [|c rest IH]; simpl; [reflexivity|].
  destruct (Ascii.eqb c ","); simpl; [discriminate|].
  intros H. rewrite (IH H). reflexivity.
Qed.

Lemma splitComma_prefix (pre d : string) :
  commaFree pre = true ->
  splitComma (pre ++ String "," d) = pre :: splitComma d.
Proof.
  induction pre as [|c rest IH]; simpl.
  - reflexivity.
  - destruct (Ascii.eqb c ","); simpl; [discriminate|].
    intros H. rewrite (IH H). reflexivity.
Qed.

Lemma eqb_empty (s : string) : String.eqb s "" = true <-> s = ""%string.
Proof. apply String.eqb_eq. Qed.

(** The payload an image contributes to the request: a string without a
    comma goes as it is; from [pre,d] with no comma in [pre] or [d] and [d]
    not empty only [d] goes (the base64 part of a data URL); an empty second
    piece falls back to the whole string; and what follows a second comma is
    cut off. *)
Theorem imageData_payload (pre d rest : string) :
  commaFree pre = true -> commaFree d = true ->
  imageData pre = pre
  /\ (d <> ""%string -> imageData (pre ++ String "," d) = d)
  /\ imageData (pre ++ ",") = (pre ++ ",")%string
  /\ (d <> ""%string ->
      imageData (pre ++ String "," (d ++ String "," rest)) = d).
Proof.
  intros Hp Hd. unfold imageData. repeat split.
  - rewrite splitComma_commaFree by exact Hp. reflexivity.
  - intros Hne. rewrite splitComma_prefix by exact Hp.
    rewrite splitComma_commaFree by exact Hd. simpl.
    destruct (String.eqb d "") eqn:E; [|reflexivity].
    apply eqb_empty in E. contradiction.
  - rewrite splitComma_prefix by exact Hp. reflexivity.
  - intros Hne. rewrite splitComma_prefix by exact Hp.
    rewrite splitComma_prefix by exact Hd. simpl.
    destruct (String.eqb d "") eqn:E; [|reflexivity].
    apply eqb_empty in E. contradiction.
Qed.

Lemma imageData_payload_witness :
  commaFree "data:image/jpeg;base64" = true /\ commaFree "QUJD" = true
  /\ imageData "data:image/jpeg;base64,QUJD" = "QUJD"%string.
Proof.
  split; [reflexivity|]. split; [reflexivity|].
  refine (proj1 (proj2 (imageData_payload "data:image/jpeg;base64" "QUJD" ""
                          eq_refl eq_refl)) _).
  discriminate.
Defined.

(** A generated image can serve as a reference image: when the service
    answers with inline data [d] that is not empty and holds no comma, the
    URL returned for it yields [d] again as its payload. *)
Theorem generated_image_round_trip (api : Api) (log : list Request)
    (imgs : list string) (prompt ratio : string)
    (pre post : list Part) (p : Part) (d : InlineData) :
  api (List.length log)
      {| req_images := imgs; req_prompt := prompt; req_aspectRatio := ratio |}
    = Response (Some (pre ++ p :: post)) ->
  Forall (fun q => inlineData q = None) pre -> inlineData p = Some d ->
  commaFree (data d) = true -> data d <> ""%string ->
  exists url,
    fst (generateAngledImage api log imgs prompt ratio) = Ok url
    /\ imageData url = data d.
Proof.
  intros Hapi Hn Hp Hc Hne.
  exists ("data:image/png;base64," ++ data d)%string. split.
  - unfold generateAngledImage. rewrite Hapi.
    rewrite (firstImageUrl_first _ _ _ _ Hn Hp). reflexivity.
  - unfold imageData.
    change ("data:image/png;base64," ++ data d)%string
      with ("data:image/png;base64" ++ String "," (data d))%string.
    rewrite splitComma_prefix by reflexivity.
    rewrite splitComma_commaFree by exact Hc. simpl.
    destruct (String.eqb (data d) "") eqn:E; [|reflexivity].
    apply eqb_empty in E. contradiction.
Qed.

Lemma generated_image_round_trip_witness :
  exists url,
    fst (generateAngledImage Props.failingSecond [] ["x"%string] "p" "1:1")
    = Ok url
    /\ imageData url = "QUJD"%string.
Proof.
  apply (generated_image_round_trip Props.failingSecond [] ["x"%string]
           "p" "1:1" []
           [] {| inlineData := Some {| mimeType := "image/png";
                                       data := "QUJD" |};
                 text := None |}
           {| mimeType := "image/png"; data := "QUJD" |}).
  - reflexivity.
  - constructor.
  - reflexivity.
  - reflexivity.
  - discriminate.
Defined.

End ServiceFacts.

(** ** Batches of any size *)

Module BatchFacts.

Import GeminiService App.

Section Batch.

Variables (api : Api) (imgs : list string) (prompt ratio : string).

#[local] Abbreviation req :=
  {| req_images := imgs; req_prompt := prompt; req_aspectRatio := ratio |}.

Lemma call_log (log : list Request) :
  snd (generateAngledImage api log imgs prompt ratio) = (log ++ [req])%list.
Proof.
  unfold generateAngledImage.
  destruct (api _ _); [reflexivity|].
  destruct (String.eqb _ _); reflexivity.
Qed.

Lemma log_step (log : list Request) (k : nat) :
  ((log ++ [req]) ++ repeat req k = log ++ repeat req (S k))%list.
Proof. rewrite <- app_assoc. reflexivity. Qed.


(** When the first [k] calls succeed the loop goes on after them with their
    results appended in call order. *)
Lemma generateBatch_prefix (k : nat) :
  forall (u : nat -> string) (n : nat) (results : list string)
         (log : list Request),
    (k <= n)%nat ->
    (forall i, (i < k)%nat ->
       fst (generateAngledImage api (log ++ repeat req i) imgs prompt ratio)
       = Ok (u i)) ->
    generateBatch api imgs prompt ratio n results log
    = generateBatch api imgs prompt ratio (n - k)
        (results ++ map u (seq 0 k)) (log ++ repeat req k).
Proof.
  induction k as [|k IH]; intros u n results log Hk H.
  - simpl. rewrite Nat.sub_0_r, !app_nil_r. reflexivity.
  - destruct n as [|n]; [lia|].
    simpl generateBatch.
    pose proof (H 0%nat ltac:(lia)) as H0. simpl in H0.
    rewrite app_nil_r in H0.
    pose proof (call_log log) as L.
    destruct (generateAngledImage api log imgs prompt ratio) as [r l].
    simpl in H0, L. subst r l.
    rewrite (IH (fun i => u (S i)) n (results ++ [u 0%nat])%list
               (log ++ [req])%list ltac:(lia)).
    + rewrite log_step. simpl Nat.sub.
      rewrite <- app_assoc. simpl app.
      rewrite <- seq_shift, map_map. reflexivity.
    + intros i Hi. rewrite log_step. apply H. lia.
Qed.

End Batch.

Section Generate.

Variable numberToString : number -> string.
Variables (api : Api) (log : list Request) (st : AppState).

#[local] Abbreviation prompt :=
  (CameraViewer.generatePrompt numberToString (settings st)).

#[local] Abbreviation req :=
  {| req_images := inputImages st; req_prompt := prompt;
     req_aspectRatio := aspectRatio st |}.

#[local] Abbreviation started :=
  {| isGenerating := true; error := None; outputImageUrls := [] |}.

(** Without a reference image [handleGenerate] sends no request: it sets
    the error message and leaves the flag and the displayed outputs of the
    previous batch as they are. *)
Theorem generate_without_images :
  inputImages st = [] ->
  handleGenerate numberToString api log st
  = ([ {| isGenerating := isGenerating (genState st);
          error := Some noImagesMessage;
          outputImageUrls := outputImageUrls (genState st) |} ], log).
Proof.
  intros H. unfold handleGenerate. rewrite H. reflexivity.
Qed.


(** When every call of the batch succeeds, the outputs are the returned
    URLs in call order and one request per item was sent. *)
Theorem generate_success (u : nat -> string) :
  inputImages st <> [] ->
  (forall i, (i < batchSize st)%nat ->
     fst (generateAngledImage api (log ++ repeat req i) (inputImages st)
            prompt (aspectRatio st)) = Ok (u i)) ->
  handleGenerate numberToString api log st
  = ([started;
      {| isGenerating := false; error := None;
         outputImageUrls := map u (seq 0 (batchSize st)) |}],
     (log ++ repeat req (batchSize st))%list).
Proof.
  unfold handleGenerate.
  destruct (inputImages st) as [|i is_] eqn:Ei; [congruence|].
  intros _ H.
  simpl List.length. simpl Nat.eqb. cbv iota.
  rewrite (generateBatch_prefix api (i :: is_) prompt (aspectRatio st)
             (batchSize st) u (batchSize st) [] log (Nat.le_refl _) H).
  rewrite Nat.sub_diag. reflexivity.
Qed.


End Generate.

Lemma generate_without_images_witness :
  inputImages initialState = []
  /\ handleGenerate Props.showZero Props.failingSecond [] initialState
     = ([ {| isGenerating := false; error := Some noImagesMessage;
             outputImageUrls := [] |} ], []).
Proof.
  split; [reflexivity|].
  exact (generate_without_images Props.showZero Props.failingSecond []
           initialState eq_refl).
Defined.


Lemma generate_success_witness :
  let st := with_inputImages ["x"%string] initialState in
  inputImages st <> []
  /\ outputImageUrls
       (last (fst (handleGenerate Props.showZero Props.failingSecond [] st))
             (genState st))
     = ["data:image/png;base64,QUJD"%string].
Proof.
  intros st.
  assert (H : inputImages st <> []) by discriminate.
  split; [exact H|].
  rewrite (generate_success Props.showZero Props.failingSecond [] st
             (fun _ => "data:image/png;base64,QUJD"%string) H).
  - reflexivity.
  - intros i Hi. simpl in Hi.
    assert (i = 0%nat) by lia. subst i. reflexivity.
Defined.


End BatchFacts.

(** ** More on the reference images *)

Module ImageMoreFacts.

Import App AppView.

Lemma removeAt_split {A : Type} (k : nat) (l : list A) :
  removeAt k l = (firstn k l ++ skipn (S k) l)%list.
Proof.
  revert k. induction l as [|h t IH]; intros [|k]; simpl; try reflexivity.
  rewrite IH. reflexivity.
Qed.

Lemma removeAt_beyond {A : Type} (k : nat) (l : list A) :
  (List.length l <= k)%nat -> removeAt k l = l.
Proof.
  revert k. induction l as [|h t IH]; intros [|k] H; simpl in *;
    try reflexivity; try lia.
  rewrite IH by lia. reflexivity.
Qed.

Lemma removeAt_incl {A : Type} (k : nat) (l : list A) : incl (removeAt k l) l.
Proof.
  rewrite removeAt_split. intros a Ha. apply in_app_or in Ha.
  destruct Ha as [Ha|Ha].
  - rewrite <- (firstn_skipn k l). apply in_or_app. left. exact Ha.
  - rewrite <- (firstn_skipn (S k) l). apply in_or_app. right. exact Ha.
Qed.

Lemma slice_incl {A : Type} (l : list A) (a b : Z) : incl (slice l a b) l.
Proof.
  unfold slice. cbv zeta. intros v Hv.
  match type of Hv with
  | In v (firstn ?n (skipn ?m l)) =>
      assert (Hs : In v (skipn m l));
      [ rewrite <- (firstn_skipn n (skipn m l));
        apply in_or_app; left; exact Hv
      | rewrite <- (firstn_skipn m l); apply in_or_app; right; exact Hs ]
  end.
Qed.

(** Removing an image: an index within the list takes out that entry and
    keeps the others in their order, so the list gets shorter by one and the
    upload button is shown again; an index beyond the list changes nothing. *)
Theorem removeImage_effect (index : nat) (st : AppState) :
  ((index < List.length (inputImages st))%nat ->
     inputImages (removeImage index st)
     = (firstn index (inputImages st) ++ skipn (S index) (inputImages st))%list
     /\ S (List.length (inputImages (removeImage index st)))
        = List.length (inputImages st)
     /\ ((List.length (inputImages st) <= 3)%nat ->
         uploadShown (removeImage index st) = true))
  /\ ((List.length (inputImages st) <= index)%nat -> removeImage index st = st)
  /\ readers (removeImage index st) = readers st.
Proof.
  unfold removeImage. cbn [inputImages readers with_inputImages].
  split; [|split; [|reflexivity]].
  - intros H. rewrite removeAt_split.
    assert (L : S (List.length (firstn index (inputImages st)
                                ++ skipn (S index) (inputImages st)))
                = List.length (inputImages st)).
    { rewrite length_app, length_firstn, length_skipn. lia. }
    split; [reflexivity|]. split; [exact L|].
    intros H3. unfold uploadShown. cbn [inputImages with_inputImages].
    apply Nat.ltb_lt. lia.
  - intros H. rewrite removeAt_beyond by exact H. destruct st; reflexivity.
Qed.

(** A reader that completes: with fewer than three images its result is
    appended at the end of the list; with three images held the result is
    dropped and the list stays as it is.  In both cases that reader, and
    only it, leaves the readers in flight. *)
Theorem readerOnload_effect (k : nat) (st : AppState) (result : string) :
  nth_error (readers st) k = Some result ->
  ((List.length (inputImages st) < 3)%nat ->
     inputImages (readerOnload k st) = (inputImages st ++ [result])%list)
  /\ (List.length (inputImages st) = 3%nat ->
      inputImages (readerOnload k st) = inputImages st)
  /\ readers (readerOnload k st)
     = (firstn k (readers st) ++ skipn (S k) (readers st))%list
  /\ S (List.length (readers (readerOnload k st))) = List.length (readers st).
Proof.
  intros H. unfold readerOnload. rewrite H.
  cbn [inputImages readers with_inputImages with_readers].
  rewrite ImageFacts.slice_prefix by lia. change (Z.to_nat 3) with 3%nat.
  assert (Hk : (k < List.length (readers st))%nat)
    by (apply nth_error_Some; congruence).
  repeat split.
  - intros Hl. apply firstn_all2. rewrite length_app. simpl. lia.
  - intros Hl. rewrite firstn_app, Hl, Nat.sub_diag, firstn_O, app_nil_r.
    apply firstn_all2. lia.
  - apply removeAt_split.
  - rewrite removeAt_split, length_app, length_firstn, length_skipn. lia.
Qed.

Lemma readerOnload_effect_witness :
  let st := with_readers ["r"%string] (with_inputImages ["a"; "b"; "c"]%string
                                         initialState) in
  nth_error (readers st) 0 = Some "r"%string
  /\ inputImages (readerOnload 0 st) = ["a"; "b"; "c"]%string
  /\ readers (readerOnload 0 st) = [].
Proof.
  intros st.
  assert (H : nth_error (readers st) 0 = Some "r"%string) by reflexivity.
  destruct (readerOnload_effect 0 st "r" H) as (_ & H3 & Hr & _).
  split; [exact H|]. split; [apply H3; reflexivity|exact Hr].
Defined.

Lemma imageStep_incl (files : list string) (st : AppState) (e : ImageEvent) :
  incl (inputImages st ++ readers st) files ->
  incl (inputImages (imageStep st e) ++ readers (imageStep st e))
       (files ++ uploadedFiles [e]).
Proof.
  intros H v Hv. apply in_app_or in Hv.
  destruct e as [[fs|]|k|index]; simpl in *.
  - unfold handleFileUpload in Hv. cbn [inputImages readers with_readers] in Hv.
    rewrite app_nil_r.
    destruct Hv as [Hv|Hv].
    + apply in_or_app. left. apply H. apply in_or_app. left. exact Hv.
    + apply in_app_or in Hv. destruct Hv as [Hv|Hv].
      * apply in_or_app. left. apply H. apply in_or_app. right. exact Hv.
      * apply in_or_app. right. exact (slice_incl _ _ _ _ Hv).
  - rewrite app_nil_r. apply H. apply in_or_app. exact Hv.
  - rewrite app_nil_r. apply H. unfold readerOnload in Hv.
    destruct (nth_error (readers st) k) as [result|] eqn:E.
    + cbn [inputImages readers with_inputImages with_readers] in Hv.
      destruct Hv as [Hv|Hv].
      * apply slice_incl in Hv. apply in_app_or in Hv.
        destruct Hv as [Hv|[Hv|[]]].
        -- apply in_or_app. left. exact Hv.
        -- subst v. apply in_or_app. right.
           apply (nth_error_In _ _ E).
      * apply in_or_app. right. exact (removeAt_incl _ _ _ Hv).
    + apply in_or_app. exact Hv.
  - rewrite app_nil_r. apply H.
    cbn [removeImage inputImages readers with_inputImages] in Hv.
    destruct Hv as [Hv|Hv].
    + apply in_or_app. left. exact (removeAt_incl _ _ _ Hv).
    + apply in_or_app. right. exact Hv.
Qed.

Lemma uploadedFiles_app (es1 es2 : list ImageEvent) :
  uploadedFiles (es1 ++ es2) = (uploadedFiles es1 ++ uploadedFiles es2)%list.
Proof.
  induction es1 as [|[[fs|]|k|i] es IH]; simpl; try exact IH.
  - reflexivity.
  - rewrite IH, app_assoc. reflexivity.
Qed.

Lemma run_incl (events : list ImageEvent) :
  forall (files : list string) (st : AppState),
    incl (inputImages st ++ readers st) files ->
    incl (inputImages (fold_left imageStep events st)
          ++ readers (fold_left imageStep events st))
         (files ++ uploadedFiles events).
Proof.
  induction events as [|e es IH]; intros files st H; simpl fold_left.
  - simpl. rewrite app_nil_r. exact H.
  - change (e :: es) with ([e] ++ es)%list.
    rewrite uploadedFiles_app, app_assoc.
    apply IH. apply imageStep_incl. exact H.
Qed.

(** Whatever the uploads, reader completions and removals: every image in
    the list, and every result still being read, is one of the files that
    were handed to [handleFileUpload]. *)
Theorem images_come_from_uploads (events : list ImageEvent) :
  let st := fold_left imageStep events initialState in
  incl (inputImages st ++ readers st) (uploadedFiles events).
Proof.
  intros st. apply (run_incl events [] initialState).
  intros v Hv. exact Hv.
Qed.

End ImageMoreFacts.

(** ** More on the pose controls and the drag *)

Module DragFacts.

Import THREE CameraViewer App Scene.

Lemma orbitUpdate_frame (s : CameraSettings) (target : Vector3) :
  match orbitUpdate s target with
  | Some p' => distance p' = distance s /\ shotType p' = shotType s
  | None => True
  end.
Proof.
  unfold orbitUpdate. destruct (JS.gt _ _); [split; reflexivity|exact I].
Qed.

(** Which events can change which field: the shot type changes only by a
    shot-type button; the distance only by its field, its slider, a shot-type
    button or a pointer-move in the distance mode; the azimuth and the
    elevation only by their own field and slider, a direction button or a
    pointer-move in the orbit mode.  This holds for every pose and ray,
    finite or not. *)
Theorem pose_frame (parseFloat : string -> number) (p : CameraSettings)
    (e : PoseEvent) :
  let p' := poseStep parseFloat p e in
  ((forall opt, e <> ShotTypeClick opt) -> shotType p' = shotType p)
  /\ ((forall t, e <> DistanceCommit t) -> (forall v, e <> DistanceSlider v) ->
      (forall opt, e <> ShotTypeClick opt) ->
      (forall ray, e <> PointerMove distance_mode ray) ->
      distance p' = distance p)
  /\ ((forall t, e <> AzimuthCommit t) -> (forall v, e <> AzimuthSlider v) ->
      (forall dir, e <> DirectionClick dir) ->
      (forall ray, e <> PointerMove orbit ray) ->
      azimuth p' = azimuth p)
  /\ ((forall t, e <> ElevationCommit t) -> (forall v, e <> ElevationSlider v) ->
      (forall dir, e <> DirectionClick dir) ->
      (forall ray, e <> PointerMove orbit ray) ->
      elevation p' = elevation p).
Proof.
  intros p'. unfold p'.
  destruct e as [tx|tx|tx|v|v|v|dir|opt|m ray]; cbn [poseStep];
    try (repeat split; intros;
         first [ reflexivity
               | exfalso;
                 match goal with
                 | H : forall x, ?c _ <> ?c x |- _ => eapply H; reflexivity
                 end ]).
  destruct m; cbn [handlePointerMove].
  - repeat split; reflexivity.
  - pose proof (orbitUpdate_frame p
                  (target_after
                     (intersectSphere ray
                        {| center := zero3; sphere_radius := radius p |})
                     zero3)) as Hf.
    destruct (orbitUpdate p _) as [q|].
    + destruct Hf as [Hd Ht].
      repeat split; intros; try assumption;
        exfalso;
        match goal with
        | H : forall r, PointerMove orbit ray <> PointerMove orbit r |- _ =>
            eapply H; reflexivity
        end.
    + repeat split; reflexivity.
  - repeat split; intros; try reflexivity.
    exfalso.
    match goal with
    | H : forall r, PointerMove distance_mode ray <> PointerMove distance_mode r
      |- _ => eapply H; reflexivity
    end.
Qed.

(** *** A distance that is NaN *)

Lemma mul_NaN_l (a : number) : JS.mul NaN a = NaN.
Proof. reflexivity. Qed.

Lemma mul_NaN_r (a : number) : JS.mul a NaN = NaN.
Proof. destruct a; reflexivity. Qed.

Lemma add_NaN_l (a : number) : JS.add NaN a = NaN.
Proof. reflexivity. Qed.

Lemma add_NaN_r (a : number) : JS.add a NaN = NaN.
Proof. destruct a; reflexivity. Qed.

Lemma sub_NaN_l (a : number) : JS.sub NaN a = NaN.
Proof. reflexivity. Qed.

Lemma sub_NaN_r (a : number) : JS.sub a NaN = NaN.
Proof. destruct a; reflexivity. Qed.

Lemma div_NaN_r (a : number) : JS.div a NaN = NaN.
Proof. destruct a; reflexivity. Qed.

Lemma lt_NaN_r (a : number) : JS.lt a NaN = false.
Proof. destruct a; reflexivity. Qed.

Lemma lt_NaN_l (a : number) : JS.lt NaN a = false.
Proof. reflexivity. Qed.

Lemma sqrt_NaN : Math.sqrt NaN = NaN.
Proof. reflexivity. Qed.

Create Rewrite HintDb nan.

#[local] Hint Rewrite mul_NaN_l mul_NaN_r add_NaN_l add_NaN_r sub_NaN_l
  sub_NaN_r div_NaN_r lt_NaN_l lt_NaN_r sqrt_NaN : nan.

Lemma cameraPos_NaN (s : CameraSettings) :
  distance s = NaN -> cameraPos s = nan3.
Proof.
  intros H. unfold cameraPos, radius. rewrite H.
  autorewrite with nan. reflexivity.
Qed.

Lemma normalize_nan3 : normalize nan3 = nan3.
Proof.
  unfold normalize, divideScalar, multiplyScalar, length, nan3.
  cbn [x y z]. autorewrite with nan. reflexivity.
Qed.

Lemma dot_nan3 (a : Vector3) : dot a nan3 = NaN.
Proof. unfold dot, nan3. cbn [x y z]. autorewrite with nan. reflexivity. Qed.

(** Once the distance is NaN the viewer cannot repair it: every pointer-move
    in the distance mode stores NaN again and every pointer-move in the orbit
    mode is ignored, whatever the ray and the two angles. *)
Theorem nan_distance_is_absorbing (s : CameraSettings) (ray : Ray) :
  distance s = NaN ->
  handlePointerMove distance_mode s ray = Some (with_distance NaN s)
  /\ handlePointerMove orbit s ray = None.
Proof.
  intros H. split.
  - unfold handlePointerMove, newRadius, zoomDenominator. cbv zeta.
    rewrite (cameraPos_NaN s H), normalize_nan3, dot_nan3.
    autorewrite with nan.
    unfold multiplyScalar, add, length, nan3. cbn [x y z].
    autorewrite with nan. rewrite JSFacts.clamp_NaN. reflexivity.
  - unfold handlePointerMove, intersectSphere, radius. cbv zeta.
    cbn [center sphere_radius]. rewrite H.
    unfold JS.gt. autorewrite with nan. cbv iota.
    unfold target_after, at_, multiplyScalar, add, orbitUpdate, length.
    cbn [x y z]. unfold JS.gt. autorewrite with nan. reflexivity.
Qed.

Lemma nan_distance_is_absorbing_witness :
  distance (with_distance NaN Props.axisPose) = NaN
  /\ handlePointerMove orbit (with_distance NaN Props.axisPose) Props.wrapRay
     = None.
Proof.
  split; [reflexivity|].
  exact (proj2 (nan_distance_is_absorbing (with_distance NaN Props.axisPose)
                  Props.wrapRay eq_refl)).
Defined.

(** The numeric field with any current value, NaN and the infinities
    included: a text that parses to a number always gives a value within the
    bounds, so it repairs a NaN; a text that does not parse passes a NaN on. *)
Theorem handleBlur_any_value (parseFloat : string -> number) (t : string)
    (value : number) (lo hi : R) :
  lo <= hi ->
  (isNaN (parseFloat t) = false ->
     JS.within lo hi (handleBlur parseFloat t value (Fin lo) (Fin hi)))
  /\ (isNaN (parseFloat t) = true -> value = NaN ->
      handleBlur parseFloat t value (Fin lo) (Fin hi) = NaN).
Proof.
  intros Hb. unfold handleBlur. cbv zeta. split.
  - destruct (parseFloat t) as [v| | |]; cbn [isNaN]; intros Hn;
      try discriminate Hn.
    + rewrite JSFacts.minmax_Fin by assumption.
      eexists; split; [reflexivity|]. rdec.
    + exists hi. split; [|lra]. js_unfold. rdec; reflexivity.
    + exists lo. split; [|lra]. js_unfold. rdec; reflexivity.
  - intros -> ->. reflexivity.
Qed.

Lemma handleBlur_any_value_witness :
  0.6 <= 1.4
  /\ JS.within 0.6 1.4
       (handleBlur Props.parseTwo "400" NaN (Fin 0.6) (Fin 1.4)).
Proof.
  assert (H : 0.6 <= 1.4) by lra.
  split; [exact H|].
  exact (proj1 (handleBlur_any_value Props.parseTwo "400" NaN 0.6 1.4 H)
           eq_refl).
Defined.

(** *** The drag session *)

Lemma moves_in_none (rays : list Ray) (p : CameraSettings) :
  fold_left sceneStep (map Move rays) (none, p) = (none, p).
Proof.
  induction rays as [|r rs IH]; simpl; [reflexivity|exact IH].
Qed.

(** After a pointer-up or a pointer-leave, in whatever mode it arrives, the
    pointer-moves that follow leave the pose as it was at the release, and
    the mode is none. *)
Theorem moves_after_release_ignored (st : SceneState) (release : SceneEvent)
    (rays : list Ray) :
  isRelease release = true ->
  fold_left sceneStep (release :: map Move rays) st = (none, snd st).
Proof.
  intros H. destruct release as [[| | |]|r]; try discriminate H;
    simpl fold_left; apply moves_in_none.
Qed.

Lemma moves_after_release_ignored_witness :
  isRelease (Pointer PointerLeave) = true
  /\ fold_left sceneStep
       (Pointer PointerLeave :: map Move [Props.axisRay; Props.wrapRay])
       (distance_mode, Props.axisPose)
     = (none, Props.axisPose).
Proof.
  split; [reflexivity|].
  exact (moves_after_release_ignored (distance_mode, Props.axisPose)
           (Pointer PointerLeave) [Props.axisRay; Props.wrapRay] eq_refl).
Defined.

End DragFacts.

(** ** The numeric field as a component *)

Module EditableNumberFacts.

Import App EditableNumber Props.

(** Entering the edit mode and leaving it without typing is not neutral: the
    text starts as the rounded value and the effect leaves it alone while
    editing, so the commit stores the rounding of the value, clamped.  A whole number within the bounds is kept; the
    distance field, whose values from 0.5 up to 1.5 all round to 1, stores
    1.  The conversion to a string and [parseFloat] are assumed to agree on
    the rounded value. *)
Theorem double_click_then_blur (parseFloat : string -> number)
    (numberToString : number -> string) (v lo hi : R) (st : State) :
  lo <= hi ->
  parseFloat (numberToString (Math.round (Fin v))) = Math.round (Fin v) ->
  let committed :=
    fst (onBlur parseFloat (Fin v) (Fin lo) (Fin hi)
           (syncEffect numberToString (Fin v)
              (onDoubleClick numberToString (Fin v) st))) in
  committed = Fin (Rclamp (IZR (Rround v)) lo hi)
  /\ (forall n : Z, v = IZR n -> lo <= v <= hi -> committed = Fin v)
  /\ (0.5 <= v < 1.5 -> lo <= 1 <= hi -> committed = Fin 1).
Proof.
  intros Hb Hp committed.
  assert (E : committed = Fin (Rclamp (IZR (Rround v)) lo hi)).
  { unfold committed, onBlur, syncEffect, onDoubleClick.
    cbn [fst tempValue isEditing].
    unfold handleBlur. cbv zeta. rewrite Hp.
    rewrite ViewerFacts.round_Fin. cbn [isNaN].
    rewrite JSFacts.minmax_Fin by exact Hb. reflexivity. }
  split; [exact E|]. split.
  - intros n Hn Hv. rewrite E. f_equal.
    assert (Rround v = n) as -> by (apply ViewerFacts.Rround_eq; lra).
    rewrite <- Hn. apply ViewerFacts.Rclamp_id. exact Hv.
  - intros Hv H1. rewrite E. f_equal.
    assert (Rround v = 1%Z) as -> by (apply ViewerFacts.Rround_eq; simpl; lra).
    apply ViewerFacts.Rclamp_id. exact H1.
Qed.

Lemma double_click_then_blur_witness :
  0.6 <= 1.4
  /\ AppView.parseOne (AppView.showOne (Math.round (Fin 0.7)))
     = Math.round (Fin 0.7)
  /\ fst (onBlur AppView.parseOne (Fin 0.7) (Fin 0.6) (Fin 1.4)
            (syncEffect AppView.showOne (Fin 0.7)
               (onDoubleClick AppView.showOne (Fin 0.7)
                  (init AppView.showOne (Fin 0.7)))))
     = Fin 1.
Proof.
  assert (Hb : 0.6 <= 1.4) by lra.
  assert (Hp : AppView.parseOne (AppView.showOne (Math.round (Fin 0.7)))
               = Math.round (Fin 0.7)).
  { rewrite ViewerFacts.round_Fin.
    assert (Rround 0.7 = 1%Z) as -> by (apply ViewerFacts.Rround_eq; simpl; lra).
    reflexivity. }
  split; [exact Hb|]. split; [exact Hp|].
  refine (proj2 (proj2 (double_click_then_blur AppView.parseOne
                          AppView.showOne 0.7 0.6 1.4 _ Hb Hp)) _ _); lra.
Defined.

End EditableNumberFacts.

(** ** The geometry of the pose *)

Module GeometryFacts.

Import THREE CameraViewer App Props Scene.

(** The camera is on the sphere of radius [2.5 * distance] around the
    origin, for every azimuth and elevation, and the distance handle sits on
    the same ray at 0.7 of that radius. *)
Theorem camera_on_sphere (az el d : R) (t : ShotType) :
  0 <= d ->
  length (cameraPos (mkPose az el d t)) = Fin (2.5 * d)
  /\ length (distanceHandlePos (mkPose az el d t)) = Fin (0.7 * (2.5 * d)).
Proof.
  intros Hd. unfold distanceHandlePos.
  rewrite ViewerFacts.cameraPos_mkPose.
  pose proof (ViewerFacts.norm2_position az el d) as Hn.
  destruct (Rposition az el d) as [[a b] c]. unfold norm2 in Hn.
  cbn [vec3]. rewrite ViewerFacts.multiplyScalar_vec, !ViewerFacts.length_vec.
  split; f_equal.
  - rewrite Hn. unfold Rradius. rewrite sqrt_square by lra. ring.
  - assert (Hsq : a * 0.7 * (a * 0.7) + b * 0.7 * (b * 0.7)
                  + c * 0.7 * (c * 0.7)
                  = (0.7 * Rradius d) * (0.7 * Rradius d)).
    { transitivity (0.7 * 0.7 * (a * a + b * b + c * c)); [ring|].
      rewrite Hn. ring. }
    rewrite Hsq.
    rewrite sqrt_square by (unfold Rradius; lra). unfold Rradius. ring.
Qed.

Lemma camera_on_sphere_witness :
  0 <= 1.4
  /\ length (cameraPos (mkPose 200 (-30) 1.4 long)) = Fin (2.5 * 1.4).
Proof.
  assert (H : 0 <= 1.4) by lra.
  split; [exact H|].
  exact (proj1 (camera_on_sphere 200 (-30) 1.4 long H)).
Defined.

(** The azimuth acts modulo 360: the position for [az + 360] is the position
    for [az]; so the azimuth 360 that the slider and the numeric field
    deliver puts the camera where azimuth 0 does. *)
Theorem camera_azimuth_period (az el d : R) (t : ShotType) :
  cameraPos (mkPose (az + 360) el d t) = cameraPos (mkPose az el d t)
  /\ cameraPos (mkPose 360 el d t) = cameraPos (mkPose 0 el d t).
Proof.
  assert (P : forall a, Rposition (a + 360) el d = Rposition a el d).
  { intros a. unfold Rposition.
    replace (Rtheta (a + 360)) with (Rtheta a + 2 * PI)
      by (unfold Rtheta; field).
    rewrite sin_plus, cos_plus, sin_2PI, cos_2PI.
    repeat f_equal; ring. }
  rewrite !ViewerFacts.cameraPos_mkPose. split.
  - rewrite P. reflexivity.
  - replace 360 with (0 + 360) at 1 by ring. rewrite P. reflexivity.
Qed.

(** The conventions of the two angles, for a positive distance: the camera
    is above the horizontal plane exactly when the elevation (between -90 and
    90) is positive, and on it at elevation 0; azimuth 0 is the +Z side
    (x = 0, z > 0) and azimuth 90 the +X side (z = 0, x > 0). *)
Theorem camera_axes (az el d : R) (t : ShotType) :
  0 < d -> -90 < el < 90 ->
  (exists px py pz,
     cameraPos (mkPose az el d t) = vec px py pz
     /\ (0 < el -> 0 < py) /\ (el < 0 -> py < 0) /\ (el = 0 -> py = 0))
  /\ (exists pz py, cameraPos (mkPose 0 el d t) = vec 0 py pz /\ 0 < pz)
  /\ (exists px py, cameraPos (mkPose 90 el d t) = vec px py 0 /\ 0 < px).
Proof.
  intros Hd Hel. pose proof PI_RGT_0 as Hpi.
  pose proof (ViewerFacts.Rphi_bounds el Hel) as [Hp0 Hp1].
  pose proof (sin_gt_0 _ Hp0 Hp1) as Hs.
  assert (Hr : 0 < Rradius d) by (unfold Rradius; lra).
  rewrite !ViewerFacts.cameraPos_mkPose. unfold Rposition. cbn [vec3].
  split; [|split].
  - eexists _, _, _. split; [reflexivity|].
    repeat split.
    + intros H. assert (0 < cos (Rphi el)); [|nra].
      apply cos_gt_0; unfold Rphi; nra.
    + intros H. assert (cos (Rphi el) < 0); [|nra].
      apply cos_lt_0; unfold Rphi; nra.
    + intros H. subst el.
      replace (Rphi 0) with (PI / 2) by (unfold Rphi; field).
      rewrite cos_PI2. ring.
  - replace (Rtheta 0) with 0 by (unfold Rtheta; field).
    rewrite sin_0, cos_0.
    exists (Rradius d * sin (Rphi el) * 1), (Rradius d * cos (Rphi el)).
    split; [unfold vec; repeat f_equal; ring|nra].
  - replace (Rtheta 90) with (PI / 2) by (unfold Rtheta; field).
    rewrite sin_PI2, cos_PI2.
    exists (Rradius d * sin (Rphi el) * 1), (Rradius d * cos (Rphi el)).
    split; [unfold vec; repeat f_equal; ring|nra].
Qed.

Lemma camera_axes_witness :
  0 < 1 /\ -90 < 35 < 90
  /\ exists pz py, cameraPos (mkPose 0 35 1 medium) = vec 0 py pz /\ 0 < pz.
Proof.
  assert (Hd : 0 < 1) by lra.
  assert (He : -90 < 35 < 90) by lra.
  split; [exact Hd|]. split; [exact He|].
  exact (proj1 (proj2 (camera_axes 0 35 1 medium Hd He))).
Defined.

End GeometryFacts.

(** ** The geometry of the two drags *)

Module DragGeometryFacts.

Import THREE CameraViewer App Props.

Lemma Rnormalize_scaled (p1 p2 p3 r : R) :
  0 < r -> p1 * p1 + p2 * p2 + p3 * p3 = r * r ->
  Rnormalize (p1, p2, p3) = (p1 * (1 / r), p2 * (1 / r), p3 * (1 / r)).
Proof.
  intros Hr Hn. unfold Rnormalize. cbv zeta.
  rewrite Hn, sqrt_square by lra.
  destruct (Req_dec_T r 0) as [E|_]; [lra|reflexivity].
Qed.

(** What the distance branch computes, for a ray of unit direction that is
    not parallel to the camera axis and that passes through the point of the
    axis at the signed distance [u] from the origin ([c] being the unit vector
    from the origin to the camera): the stored distance is
    [clamp (|2.5 * d - u| / 2.5, 0.6, 1.4)].  So a ray through the camera
    itself stores 0.6, and a ray through the origin keeps a distance that is
    within the range. *)
Theorem zoom_through_axis_point (az el d : R) (t : ShotType)
    (ox oy oz dx dy dz u s c1 c2 c3 : R) :
  0 < d ->
  dx * dx + dy * dy + dz * dz = 1 ->
  RzoomDen (Rposition az el d) (dx, dy, dz) <> 0 ->
  Rnormalize (Rposition az el d) = (c1, c2, c3) ->
  ox + s * dx = u * c1 -> oy + s * dy = u * c2 -> oz + s * dz = u * c3 ->
  let stored := newRadius (mkPose az el d t) (mkRay ox oy oz dx dy dz) in
  stored = Fin (Rclamp (Rabs (Rradius d - u) / 2.5) 0.6 1.4)
  /\ (u = Rradius d -> stored = Fin 0.6)
  /\ (u = 0 -> 0.6 <= d <= 1.4 -> stored = Fin d).
Proof.
  intros Hd Hunit Hden Hc Hx Hy Hz stored.
  assert (Hr : 0 < Rradius d) by (unfold Rradius; lra).
  assert (E : stored = Fin (Rclamp (Rabs (Rradius d - u) / 2.5) 0.6 1.4)).
  { unfold stored. rewrite ViewerFacts.newRadius_regular by exact Hden.
    f_equal.
    pose proof (ViewerFacts.norm2_position az el d) as Hn.
    destruct (Rposition az el d) as [[p1 p2] p3]. unfold norm2 in Hn.
    pose proof (ViewerFacts.Rnormalize_unit p1 p2 p3 ltac:(nra)) as Hcc.
    rewrite Hc in Hcc.
    pose proof (Rnormalize_scaled p1 p2 p3 (Rradius d) Hr Hn) as Hs.
    rewrite Hc in Hs. injection Hs as E1 E2 E3.
    assert (P1 : p1 = c1 * Rradius d) by (rewrite E1; field; lra).
    assert (P2 : p2 = c2 * Rradius d) by (rewrite E2; field; lra).
    assert (P3 : p3 = c3 * Rradius d) by (rewrite E3; field; lra).
    assert (HD : RzoomDot (p1, p2, p3) (dx, dy, dz)
                 = dx * c1 + dy * c2 + dz * c3).
    { unfold RzoomDot. rewrite Hc. reflexivity. }
    assert (Hden' : RzoomDen (p1, p2, p3) (dx, dy, dz)
                    = 1 - (dx * c1 + dy * c2 + dz * c3)
                          * (dx * c1 + dy * c2 + dz * c3)).
    { unfold RzoomDen. rewrite HD. reflexivity. }
    assert (HN : RzoomNum (p1, p2, p3) (ox, oy, oz) (dx, dy, dz)
                 = - u * RzoomDen (p1, p2, p3) (dx, dy, dz)).
    { rewrite Hden'. unfold RzoomNum. rewrite Hc, HD.
      assert (Ox : ox = u * c1 - s * dx) by lra.
      assert (Oy : oy = u * c2 - s * dy) by lra.
      assert (Oz : oz = u * c3 - s * dz) by lra.
      rewrite Ox, Oy, Oz.
      set (D := dx * c1 + dy * c2 + dz * c3).
      transitivity
        (- (u * (c1 * c1 + c2 * c2 + c3 * c3) - u * D * D - s * D
            + s * D * (dx * dx + dy * dy + dz * dz))).
      - unfold D. ring.
      - rewrite Hcc, Hunit. ring. }
    unfold RnewRadius. rewrite Hc. cbv zeta. rewrite HN.
    replace (- u * RzoomDen (p1, p2, p3) (dx, dy, dz)
             / RzoomDen (p1, p2, p3) (dx, dy, dz)) with (- u)
      by (field; exact Hden).
    f_equal. f_equal.
    rewrite P1, P2, P3.
    replace ((c1 * Rradius d + c1 * - u) * (c1 * Rradius d + c1 * - u)
             + (c2 * Rradius d + c2 * - u) * (c2 * Rradius d + c2 * - u)
             + (c3 * Rradius d + c3 * - u) * (c3 * Rradius d + c3 * - u))
      with ((c1 * c1 + c2 * c2 + c3 * c3) * Rsqr (Rradius d - u))
      by (unfold Rsqr; ring).
    rewrite Hcc, Rmult_1_l. apply sqrt_Rsqr_abs. }
  split; [exact E|]. split.
  - intros Hu. rewrite E, Hu. f_equal.
    replace (Rradius d - Rradius d) with 0 by ring.
    rewrite Rabs_R0. unfold Rclamp. rdec.
  - intros Hu Hrange. rewrite E, Hu. f_equal.
    replace (Rradius d - 0) with (Rradius d) by ring.
    rewrite Rabs_pos_eq by lra.
    replace (Rradius d / 2.5) with d by (unfold Rradius; lra).
    apply ViewerFacts.Rclamp_id. exact Hrange.
Qed.

Lemma zoom_through_axis_point_witness :
  0 < 1 /\ 1 * 1 + 0 * 0 + 0 * 0 = 1
  /\ RzoomDen (Rposition 0 0 1) (1, 0, 0) <> 0
  /\ Rnormalize (Rposition 0 0 1) = (0, 0, 1)
  /\ newRadius axisPose (mkRay (-5) 0 2.5 1 0 0) = Fin 0.6.
Proof.
  assert (Hd : 0 < 1) by lra.
  assert (Hu : 1 * 1 + 0 * 0 + 0 * 0 = 1) by lra.
  assert (Hc : Rnormalize (Rposition 0 0 1) = (0, 0, 1))
    by (rewrite ViewerFacts.Rposition_axis; apply ViewerFacts.Rnormalize_axis).
  assert (Hden : RzoomDen (Rposition 0 0 1) (1, 0, 0) <> 0).
  { unfold RzoomDen, RzoomDot. rewrite Hc. unfold Rdot. lra. }
  split; [exact Hd|]. split; [exact Hu|]. split; [exact Hden|].
  split; [exact Hc|].
  refine (proj1 (proj2 (zoom_through_axis_point 0 0 1 medium (-5) 0 2.5 1 0 0
                          2.5 5 0 0 1 Hd Hu Hden Hc _ _ _)) _);
    unfold Rradius; lra.
Defined.

(** The orbit branch stores whole degrees: whenever it changes the pose, the
    azimuth is an integer from 0 to 359 and the elevation an integer from
    -30 to 60. *)
Theorem orbit_stores_whole_degrees (az el d : R) (t : ShotType)
    (ox oy oz dx dy dz : R) :
  match handlePointerMove orbit (mkPose az el d t) (mkRay ox oy oz dx dy dz)
  with
  | None => True
  | Some p' =>
      exists n m : Z,
        azimuth p' = Fin (IZR n) /\ (0 <= n <= 359)%Z
        /\ elevation p' = Fin (IZR m) /\ (-30 <= m <= 60)%Z
  end.
Proof.
  rewrite ViewerFacts.handlePointerMove_orbit_mkRay.
  destruct (RintersectSphere ox oy oz dx dy dz (Rradius d))
    as [[[tx ty] tz]|]; cbn [option_map target_after vec3].
  - destruct (Rlt_dec 0 (sqrt (tx * tx + ty * ty + tz * tz))) as [Hr|Hr].
    + rewrite (ViewerFacts.orbitUpdate_vec _ _ _ _ Hr).
      cbn [azimuth elevation].
      exists (Rround (Razimuth tx tz) mod 360)%Z.
      pose proof (Z.mod_pos_bound (Rround (Razimuth tx tz)) 360 ltac:(lia)).
      set (k := Rround (Relevation tx ty tz)).
      unfold Rclamp.
      destruct (Rlt_dec (IZR k) (-30)) as [H1|H1].
      * exists (-30)%Z. repeat split; try lia.
      * destruct (Rlt_dec 60 (IZR k)) as [H2|H2].
        -- exists 60%Z. repeat split; try lia.
        -- exists k. repeat split; try lia.
           ++ apply le_IZR. lra.
           ++ apply le_IZR. lra.
    + unfold orbitUpdate. rewrite ViewerFacts.length_vec.
      replace (JS.gt (Fin (sqrt (tx * tx + ty * ty + tz * tz))) (Fin 0))
        with false; [exact I|].
      symmetry. unfold JS.gt. apply JSFacts.lt_Fin_false. lra.
  - rewrite ViewerFacts.orbitUpdate_zero. exact I.
Qed.

(** A pointer ray aimed at the point of the sphere that belongs to a
    whole-degree azimuth and elevation stores exactly these two angles; so
    with the pointer on the camera handle of a whole-degree pose, the orbit
    branch gives the pose back. *)
Theorem orbit_fixed_point (n m : Z) (az0 el0 d : R) (t : ShotType) :
  (0 <= n <= 359)%Z -> (-30 <= m <= 60)%Z -> 0 < d ->
  handlePointerMove orbit (mkPose az0 el0 d t)
    (radialRay (Rposition (IZR n) (IZR m) d) (Rradius d))
  = Some (mkPose (IZR n) (IZR m) d t).
Proof.
  intros Hn Hm Hd.
  assert (Hn0 : 0 <= IZR n < 360).
  { destruct Hn as [H0 H1]. apply IZR_le in H0.
    assert (n < 360)%Z as H2 by lia. apply IZR_lt in H2. lra. }
  assert (Hm0 : -30 <= IZR m <= 60).
  { destruct Hm as [H0 H1]. apply IZR_le in H0, H1. lra. }
  rewrite ViewerFacts.orbit_through_position by assumption.
  rewrite (ViewerFacts.Rround_eq (IZR n) n) by lra.
  rewrite (ViewerFacts.Rround_eq (IZR m) m) by lra.
  rewrite Z.mod_small by lia. reflexivity.
Qed.

Lemma orbit_fixed_point_witness :
  (0 <= 45 <= 359)%Z /\ (-30 <= 35 <= 60)%Z /\ 0 < 1
  /\ handlePointerMove orbit dragPose
       (radialRay (Rposition 45 35 1) (Rradius 1))
     = Some dragPose.
Proof.
  assert (Hn : (0 <= 45 <= 359)%Z) by lia.
  assert (Hm : (-30 <= 35 <= 60)%Z) by lia.
  assert (Hd : 0 < 1) by lra.
  split; [exact Hn|]. split; [exact Hm|]. split; [exact Hd|].
  exact (orbit_fixed_point 45 35 45 35 1 medium Hn Hm Hd).
Defined.

End DragGeometryFacts.

(** ** The prompt and the buttons *)

Module ViewFacts.

Import CameraViewer App AppView.

Ltac desc_eval :=
  unfold horizontalDesc, verticalDesc; js_unfold; rdec; simpl; try reflexivity.

(** Outside [[0, 360)] the horizontal classification still answers: every
    azimuth from 337.5 upwards (360 and the positive infinity included) and
    every azimuth below 22.5 (the negative ones included) is a front view; a
    NaN fails every test and gets the label of the last branch.  The vertical
    classification gives eye level to a NaN. *)
Theorem classification_outside_range (a : R) :
  (337.5 <= a -> horizontalDesc (Fin a) = "Front view (0°)"%string)
  /\ (a < 22.5 -> horizontalDesc (Fin a) = "Front view (0°)"%string)
  /\ horizontalDesc PInf = "Front view (0°)"%string
  /\ horizontalDesc NInf = "Front view (0°)"%string
  /\ horizontalDesc NaN = "Front-left 315° angle"%string
  /\ verticalDesc NaN = "Eye-level horizontal view"%string
  /\ verticalDesc PInf = "Bird's eye view (High overhead)"%string
  /\ verticalDesc NInf = "Low angle hero shot looking up"%string.
Proof.
  repeat split; try intros H; desc_eval.
Qed.

(** After a direction button the prompt names the direction of that button
    and a high angle: in the order of the buttons, the horizontal phrases
    are those of 315, 0, 45, 270, 90, 225, 180 and 135 degrees, and the
    vertical phrase is that of the elevation 35. *)
Theorem direction_button_prompt (prev : CameraSettings) :
  map (fun dir =>
         horizontalDesc (azimuth (setGameAngle (dir_angle dir) prev)))
      directionButtons
  = [ "Front-left 315° angle"; "Front view (0°)"; "Front-right 45° angle";
      "Left side 270° profile"; "Right side 90° profile";
      "Rear-left 225° angle"; "Back view 180°"; "Rear-right 135° angle"
    ]%string
  /\ (forall a, verticalDesc (elevation (setGameAngle a prev))
               = "High angle shot looking down"%string).
Proof.
  split.
  - change (map (fun dir =>
              horizontalDesc (azimuth (setGameAngle (dir_angle dir) prev)))
              directionButtons)
      with (map (fun dir => horizontalDesc (dir_angle dir)) directionButtons).
    rewrite <- (map_map dir_angle horizontalDesc).
    unfold directionButtons. rewrite ControlFacts.direction_buttons.
    cbn [map]. repeat f_equal; desc_eval.
  - intros a. cbn [setGameAngle elevation]. desc_eval.
Qed.

Lemma round_IZR (n : Z) : Math.round (Fin (IZR n)) = Fin (IZR n).
Proof.
  rewrite ViewerFacts.round_Fin. f_equal. f_equal.
  apply ViewerFacts.Rround_eq. lra.
Qed.

Lemma eq_IZR_Fin (a b : Z) : JS.eq (Fin (IZR a)) (Fin (IZR b)) = Z.eqb a b.
Proof.
  unfold JS.eq, JS.Reqb.
  destruct (Req_dec_T (IZR a) (IZR b)) as [E|E].
  - apply eq_IZR in E. subst b. symmetry. apply Z.eqb_refl.
  - symmetry. apply Z.eqb_neq. intros ->. apply E. reflexivity.
Qed.

Lemma button_angle (dir : Direction) :
  In dir directionButtons ->
  exists n : Z, dir_angle dir = Fin (IZR n)
    /\ In n [315; 0; 45; 270; 90; 225; 180; 135]%Z.
Proof.
  intros H. apply (in_map dir_angle) in H.
  unfold directionButtons in H. rewrite ControlFacts.direction_buttons in H.
  simpl in H.
  repeat (destruct H as [H|H];
          [eexists; split; [symmetry; exact H|simpl; tauto]|]).
  destruct H.
Qed.

(** The highlight of the direction buttons: after a click on one of them that
    button is active and no button of another angle is.  With the azimuth
    360, which the slider delivers at its maximum, no button is active,
    although the camera stands where the front button puts it. *)
Theorem direction_button_highlight (prev : CameraSettings)
    (dir dir' : Direction) :
  In dir directionButtons -> In dir' directionButtons ->
  (isActive (setGameAngle (dir_angle dir) prev) dir' = true
   <-> dir_angle dir' = dir_angle dir)
  /\ isActive (with_azimuth (Fin 360) prev) dir' = false.
Proof.
  intros H H'.
  destruct (button_angle dir H) as (n & En & Hn).
  destruct (button_angle dir' H') as (n' & En' & Hn').
  unfold isActive. cbn [setGameAngle with_azimuth azimuth].
  rewrite En, En'. change 360 with (IZR 360).
  rewrite !round_IZR, !eq_IZR_Fin. split.
  - split.
    + intros E. apply Z.eqb_eq in E. subst n'. reflexivity.
    + intros E. injection E as E. apply eq_IZR in E. subst n'.
      apply Z.eqb_refl.
  - simpl in Hn'. apply Z.eqb_neq. lia.
Qed.

Lemma direction_button_highlight_witness :
  let front := {| dir_label := "正前"; dir_angle := Fin 0 |} in
  In front directionButtons
  /\ isActive (setGameAngle (dir_angle front) initialSettings) front = true
  /\ isActive (with_azimuth (Fin 360) initialSettings) front = false.
Proof.
  intros front.
  assert (H : In front directionButtons).
  { unfold directionButtons, directions, isCenter. simpl. js_unfold.
    rdec. simpl. tauto. }
  destruct (direction_button_highlight initialSettings front front H H)
    as [[_ Ha] Hb].
  split; [exact H|]. split; [apply Ha; reflexivity|exact Hb].
Defined.

End ViewFacts.
